(** * Usada-VC: the [/conversion] command pipeline

    A shallow embedding of [commands/conversion.js] (the job-execution
    pipeline of the Discord bot) and the properties of its validation,
    download, command-assembly and cleanup steps.

    JavaScript values are modelled as follows.
    - strings are [string]; [toLowerCase] acts on the ASCII letters, which
      is all the test [endsWith('.wav')] can observe;
    - the integers delivered by Discord ([getInteger]) are [Z], an absent
      option ([null]) is [None];
    - the duration parsed from ffprobe is an IEEE-754 double ([float]), as a
      JavaScript number is;
    - a thrown exception or rejected promise is the [Thrown] outcome of a
      state-and-exception monad over the [world] (filesystem, event log,
      count of generated identifiers); every [await] is sequential, so one
      job is a single thread of state passing.

    Everything outside the repository (Discord, the network, ffprobe, the
    inference process, the operating system) is an oracle of the
    environment record [env]; theorems quantify over all environments. *)

From Stdlib Require Import Bool List String Ascii ZArith Lia.
From Stdlib Require Import DecimalString DecimalPos DecimalZ.
From Stdlib Require Import Floats.
Import ListNotations.

Local Open Scope list_scope.
Local Open Scope string_scope.

Set Implicit Arguments.

(* ================================================================== *)
(** ** String helpers of the JavaScript runtime *)

Module Js.

(** [String.prototype.toLowerCase], on ASCII letters. *)
Definition lower_ascii (c : ascii) : ascii :=
  let n := nat_of_ascii c in
  if (65 <=? n)%nat && (n <=? 90)%nat then ascii_of_nat (n + 32) else c.

Fixpoint toLowerCase (s : string) : string :=
  match s with
  | EmptyString => EmptyString
  | String c r => String (lower_ascii c) (toLowerCase r)
  end.

(** [s.startsWith(p)]. *)
Definition startsWith (s p : string) : bool := String.prefix p s.

(** [s.endsWith(suf)]: [s] is [suf], or its tail ends with [suf]. *)
Fixpoint endsWith (s suf : string) : bool :=
  String.eqb s suf ||
  match s with
  | EmptyString => false
  | String _ r => endsWith r suf
  end.

(** [Array.prototype.join]. *)
Fixpoint join (sep : string) (l : list string) : string :=
  match l with
  | [] => ""
  | [x] => x
  | x :: r => x ++ sep ++ join sep r
  end.

(** Template-literal rendering of an integer, [`${n}`]: the decimal
    digits, with a minus sign when negative (Discord integers stay within
    the range JavaScript prints in full). *)
Definition show (n : Z) : string := NilZero.string_of_int (Z.to_int n).

(** Truthiness of a string: only [''] is falsy. *)
Definition truthy (s : string) : bool := negb (String.eqb s "").

End Js.

(** The double-quote character, written by its code. *)
Definition dquote : string := String "034"%char "".

(* ================================================================== *)
(** ** Errors, events and the world *)

(** The exceptions the pipeline can see, named after the spec's taxonomy.
    The first four are the [new Error(...)] thrown by the source itself; the
    others are rejections coming from outside, carrying the outside
    message. *)
Inductive error : Type :=
| InvalidFormat
| InvalidParameterCombination
| DurationExceeded (fileName : string)
| OutputNotFound
| DownloadError (msg : string)      (* [fetch] / [arrayBuffer] rejected *)
| ProbeError (msg : string)         (* ffprobe's [exec] reported an error *)
| ExecutionError (msg : string)     (* the inference [exec] reported an error *)
| IOError (msg : string)            (* an [fs.*Sync] call threw *)
| ReplyError (msg : string).        (* a Discord reply call rejected *)

(** [error.message]. *)
Definition message (e : error) : string :=
  match e with
  | InvalidFormat => "Invalid audio file format."
  | InvalidParameterCombination =>
      "Semi-tone shift can only be used with singing mode."
  | DurationExceeded fileName =>
      "The " ++ fileName ++
      " audio file exceeds the maximum duration of 30 seconds."
  | OutputNotFound => "Output file not found."
  | DownloadError m | ProbeError m | ExecutionError m
  | IOError m | ReplyError m => m
  end.

(** What [interaction.editReply] is given. *)
Record reply : Type := { content : string; files : list string }.

(** Calls that leave the process, in the order they are made. *)
Inductive event : Type :=
| EDeferReply
| EEditReply (r : reply)
| EMkdir (p : string)
| EWrite (p : string)
| EReaddir (p : string)
| ERm (p : string)
| EFetch (u : string)
| EProbe (p : string)
| EExec (command : string)
| EConsoleError (label : string) (e : error).

Inductive node : Type :=
| Dir
| File (bytes : list Byte.byte).

(** The filesystem: full path and node, in directory-enumeration order. *)
Definition filesystem : Type := list (string * node).

Record world : Type := {
  fs : filesystem;
  log : list event;      (* oldest first *)
  uuids : nat            (* identifiers generated so far *)
}.

Definition emit (e : event) (w : world) : world :=
  {| fs := fs w; log := (log w ++ [e])%list; uuids := uuids w |}.

Definition with_fs (f : filesystem) (w : world) : world :=
  {| fs := f; log := log w; uuids := uuids w |}.

(* ================================================================== *)
(** ** Computations that may throw *)

Inductive outcome (A : Type) : Type :=
| Returned (a : A)
| Thrown (e : error).

Arguments Returned {A} a.
Arguments Thrown {A} e.

(** A computation over a state [S]; [M] is the case of the world alone. *)
Definition Comp (S A : Type) : Type := S -> outcome A * S.
Definition M (A : Type) : Type := Comp world A.

Definition ret {S A} (a : A) : Comp S A := fun s => (Returned a, s).

Definition throw {S A} (e : error) : Comp S A := fun s => (Thrown e, s).

Definition bind {S A B} (c : Comp S A) (k : A -> Comp S B) : Comp S B :=
  fun s =>
    match c s with
    | (Returned a, s1) => k a s1
    | (Thrown e, s1) => (Thrown e, s1)
    end.

Notation "x <- c ;; k" := (bind c (fun x => k))
  (at level 61, c at next level, right associativity).
Notation "c ;;; k" := (bind c (fun _ => k))
  (at level 61, right associativity).

(** [try { body } catch (error) { handler } finally { final }]. *)
Definition try_catch_finally {S A}
    (body : Comp S A) (handler : error -> Comp S A) (final : Comp S unit)
  : Comp S A :=
  fun s =>
    let (r1, s1) := body s in
    let (r2, s2) := match r1 with
                    | Returned a => (Returned a, s1)
                    | Thrown e => handler e s1
                    end in
    let (r3, s3) := final s2 in
    match r3 with
    | Returned _ => (r2, s3)
    | Thrown e => (Thrown e, s3)
    end.

(** [promise.catch(handler)]. *)
Definition promise_catch {S A}
    (p : Comp S A) (handler : error -> Comp S A) : Comp S A :=
  fun s =>
    match p s with
    | (Returned a, s1) => (Returned a, s1)
    | (Thrown e, s1) => handler e s1
    end.

(** A function body with one mutable local ([let x = init]). *)
Definition frame : Type := (string * world)%type.

Definition with_local {A} (init : string) (c : Comp frame A) : M A :=
  fun w => let (r, s) := c (init, w) in (r, snd s).

Definition get_local : Comp frame string := fun s => (Returned (fst s), s).

Definition set_local (v : string) : Comp frame unit :=
  fun s => (Returned tt, (v, snd s)).

Definition lift {A} (c : M A) : Comp frame A :=
  fun s => let (r, w) := c (snd s) in (r, (fst s, w)).

(* ================================================================== *)
(** ** Paths and the filesystem *)

(** The bot runs on Windows only: [path.sep] is the backslash. *)
Definition sep : string := "\".

(** [path.join]: the non-empty segments joined by the separator, ['.'] when
    there is none.  Normalisation of [.], [..], [/] and doubled separators
    is not modelled: what the bot joins onto a base directory is a literal
    name, a directory entry or a name built from a uuid, and the statements
    that compare two workspaces are restricted to identifiers of the shape
    uuid v4 gives ([uuid_text]). *)
Definition path_join (segments : list string) : string :=
  match filter Js.truthy segments with
  | [] => "."
  | l => Js.join sep l
  end.

(** What Windows takes for a separator inside a path: the backslash and
    the slash. *)
Definition is_sep (c : ascii) : bool :=
  Ascii.eqb c "\"%char || Ascii.eqb c "/"%char.

Fixpoint has_sep (s : string) : bool :=
  match s with
  | EmptyString => false
  | String c r => is_sep c || has_sep r
  end.

(** [p] is [dir] itself or lies anywhere below it. *)
Definition within (dir p : string) : bool :=
  String.eqb p dir || String.prefix (dir ++ sep) p.

(** The entry name of [p] when [p] is an immediate child of [dir]. *)
Definition child_name (dir p : string) : option string :=
  let pre := dir ++ sep in
  if String.prefix pre p then
    let rest := substring (length pre) (length p - length pre) p in
    if has_sep rest || negb (Js.truthy rest) then None else Some rest
  else None.

Definition is_dir (f : filesystem) (p : string) : bool :=
  existsb (fun e => String.eqb (fst e) p &&
                    match snd e with Dir => true | File _ => false end) f.

Definition exists_path (f : filesystem) (p : string) : bool :=
  existsb (fun e => String.eqb (fst e) p) f.

(** The directories above [p]: the non-empty prefixes of [p] that end
    where a run of separators begins. *)
Fixpoint ancestors_after (before : string) (after_sep : bool)
    (rest : string) : list string :=
  match rest with
  | EmptyString => []
  | String c r =>
      ((if is_sep c && negb after_sep && Js.truthy before
        then [before] else []) ++
       ancestors_after (before ++ String c EmptyString) (is_sep c) r)%list
  end.

Definition ancestors (p : string) : list string :=
  ancestors_after EmptyString false p.

(** One directory: a new entry unless the path is there. *)
Definition fs_mkdir_one (f : filesystem) (p : string) : filesystem :=
  if exists_path f p then f else (f ++ [(p, Dir)])%list.

(** [mkdir] with [recursive: true]: the directories above the path, from
    the top down, and then the path, each unless it is there. *)
Definition fs_mkdir (p : string) (f : filesystem) : filesystem :=
  fold_left fs_mkdir_one (ancestors p ++ [p])%list f.

(** Writing a file replaces the entry at the path, or adds one. *)
Definition fs_write (p : string) (b : list Byte.byte) (f : filesystem)
  : filesystem :=
  if exists_path f p
  then map (fun e => if String.eqb (fst e) p then (p, File b) else e) f
  else (f ++ [(p, File b)])%list.

(** Recursive removal: the path and everything below it. *)
Definition fs_rm (p : string) (f : filesystem) : filesystem :=
  filter (fun e => negb (within p (fst e))) f.

(** The names of the immediate children of a directory. *)
Fixpoint fs_children (dir : string) (f : filesystem) : list string :=
  match f with
  | [] => []
  | e :: r =>
      match child_name dir (fst e) with
      | Some n => n :: fs_children dir r
      | None => fs_children dir r
      end
  end.

(* ================================================================== *)
(** ** The environment *)

Inductive body_outcome : Type :=
| BodyFailed (msg : string)             (* [arrayBuffer()] rejects *)
| Body (bytes : list Byte.byte).

Inductive fetch_outcome : Type :=
| NetworkFailure (msg : string)         (* [fetch] rejects *)
| Response (status : Z) (body : body_outcome).

(** [response.ok]: a status in 200..299.  The source never reads it. *)
Definition response_ok (status : Z) : bool :=
  ((200 <=? status) && (status <=? 299))%Z.

Inductive probe_outcome : Type :=
| ProbeFailed (msg : string)            (* [exec] calls back with an error *)
| ProbeStdout (parsed : float).         (* [parseFloat(stdout)] *)

(** Every answer of the outside may depend on the world at the call.
    - [process_env_TEMP], [process_cwd]: [process.env.TEMP], [process.cwd()];
    - [uuid_source n]: the [n]-th identifier [uuidv4()] hands out;
    - [fs_unwritable w p]: the message of the error, if any, with which the
      operating system refuses to create, write or remove [p];
    - [http_fetch], [ffprobe]: what the server and the probe answer;
    - [child_process w c]: the error, if any, that [exec] reports for the
      command [c], and the filesystem the process leaves behind;
    - [discord_defer], [discord_edit]: the message of the rejection, if any,
      of the two reply calls. *)
Record env : Type := {
  process_env_TEMP : option string;
  process_cwd : string;
  uuid_source : nat -> string;
  fs_unwritable : world -> string -> option string;
  http_fetch : world -> string -> fetch_outcome;
  ffprobe : world -> string -> probe_outcome;
  child_process : world -> string -> option string * filesystem;
  discord_defer : world -> option string;
  discord_edit : world -> reply -> option string
}.

Section Primitives.

Variable E : env.

(** [uuidv4()]. *)
Definition uuidv4 : M string :=
  fun w => (Returned (uuid_source E (uuids w)),
            {| fs := fs w; log := log w; uuids := S (uuids w) |}).

(** [fs.mkdirSync(p, { recursive: true })]. *)
Definition mkdirSync (p : string) : M unit :=
  fun w =>
    let w1 := emit (EMkdir p) w in
    match fs_unwritable E w p with
    | Some m => (Thrown (IOError m), w1)
    | None => (Returned tt, with_fs (fs_mkdir p (fs w)) w1)
    end.

(** [fs.writeFileSync(p, bytes)]. *)
Definition writeFileSync (p : string) (b : list Byte.byte) : M unit :=
  fun w =>
    let w1 := emit (EWrite p) w in
    match fs_unwritable E w p with
    | Some m => (Thrown (IOError m), w1)
    | None => (Returned tt, with_fs (fs_write p b (fs w)) w1)
    end.

(** [fs.readdirSync(p)]: throws, with Node's message, when [p] is a file
    or is not there. *)
Definition readdirSync (p : string) : M (list string) :=
  fun w =>
    let w1 := emit (EReaddir p) w in
    if is_dir (fs w) p
    then (Returned (fs_children p (fs w)), w1)
    else if exists_path (fs w) p
    then (Thrown (IOError ("ENOTDIR: not a directory, scandir '" ++ p ++ "'")),
          w1)
    else (Thrown (IOError ("ENOENT: no such file or directory, scandir '"
                           ++ p ++ "'")), w1).

(** Whether anything is on disk at [p] or below it. *)
Definition present (f : filesystem) (p : string) : bool :=
  existsb (fun e => within p (fst e)) f.

(** [fs.rmSync(p, { recursive: true, force: true })]: with [force] a path
    that is not there is not an error; a tree that is there is removed,
    unless the operating system refuses (a file or the directory in use,
    a missing permission), and then the call throws.  What a refused call
    had removed before it was refused is not modelled: the tree is left as
    it was, and the statements about a refused removal speak of the
    directory itself only. *)
Definition rmSync (p : string) : M unit :=
  fun w =>
    let w1 := emit (ERm p) w in
    if present (fs w) p
    then match fs_unwritable E w p with
         | Some m => (Thrown (IOError m), w1)
         | None => (Returned tt, with_fs (fs_rm p (fs w)) w1)
         end
    else (Returned tt, w1).

(** [await fetch(url)]. *)
Definition fetch (u : string) : M (Z * body_outcome) :=
  fun w =>
    let w1 := emit (EFetch u) w in
    match http_fetch E w u with
    | NetworkFailure m => (Thrown (DownloadError m), w1)
    | Response status body => (Returned (status, body), w1)
    end.

(** [await response.arrayBuffer()]. *)
Definition arrayBuffer (response : Z * body_outcome) : M (list Byte.byte) :=
  match snd response with
  | BodyFailed m => throw (DownloadError m)
  | Body b => ret b
  end.

(** [await interaction.deferReply()]. *)
Definition deferReply : M unit :=
  fun w =>
    let w1 := emit EDeferReply w in
    match discord_defer E w with
    | Some m => (Thrown (ReplyError m), w1)
    | None => (Returned tt, w1)
    end.

(** [interaction.editReply(r)]. *)
Definition editReply (r : reply) : M unit :=
  fun w =>
    let w1 := emit (EEditReply r) w in
    match discord_edit E w r with
    | Some m => (Thrown (ReplyError m), w1)
    | None => (Returned tt, w1)
    end.

(** [console.error(label, error)]. *)
Definition console_error (label : string) (e : error) : M unit :=
  fun w => (Returned tt, emit (EConsoleError label e) w).

End Primitives.

(* ================================================================== *)
(** ** commands/conversion.js *)

(** A Discord attachment: where it is and what it says it is called. *)
Record attachment : Type := { url : string; name : string }.

(** The option values of one [/conversion] interaction.  [source], [target]
    and [singing] are required by the command schema; the two integers are
    optional, [None] being the [null] that [getInteger] returns. *)
Record interaction : Type := {
  opt_source : attachment;
  opt_target : attachment;
  opt_singing : bool;
  opt_diffusion_steps : option Z;
  opt_semi_tone_shift : option Z
}.

(** What [processInteractionOptions] returns. *)
Record options : Type := {
  sourcePath : string;
  targetPath : string;
  singing : bool;
  diffusionSteps : Z;
  semiToneShift : Z
}.

Definition VALID_AUDIO_EXTENSIONS : list string := [".wav"].

Definition MAX_AUDIO_DURATION : float := 30%float.

Definition DEFAULT_SINGING_DIFFUSION_STEPS : Z := 60.

Definition DEFAULT_NON_SINGING_DIFFUSION_STEPS : Z := 25.

(** [value || 0] on an optional integer: [null] and [0] both give [0]. *)
Definition or_zero (v : option Z) : Z :=
  match v with
  | Some n => n
  | None => 0%Z
  end.

(** The test inside [validateAudioFile]. *)
Definition has_valid_extension (fileName : string) : bool :=
  existsb (fun ext => Js.endsWith (Js.toLowerCase fileName) ext)
          VALID_AUDIO_EXTENSIONS.

Definition validateAudioFile {S} (file : attachment) : Comp S unit :=
  if negb (has_valid_extension (name file))
  then throw InvalidFormat
  else ret tt.

(** The two [=== null] tests of the source, in their order. *)
Definition determineDiffusionSteps (singing : bool) (diffusionSteps : option Z)
  : Z :=
  match singing, diffusionSteps with
  | true, None => DEFAULT_SINGING_DIFFUSION_STEPS
  | _, None => DEFAULT_NON_SINGING_DIFFUSION_STEPS
  | _, Some n => n
  end.

(** [duration > MAX_AUDIO_DURATION], on doubles. *)
Definition over_limit (duration : float) : bool :=
  PrimFloat.ltb MAX_AUDIO_DURATION duration.

(** [array.push(x)]. *)
Definition push (a : list string) (x : string) : list string :=
  (a ++ [x])%list.

(** The [command] array of [buildConversionCommand], before it is joined. *)
Definition command_array (cwd : string)
    (sourcePath targetPath outputDir : string) (singing : bool)
    (diffusionSteps semiToneShift : Z) : list string :=
  let pythonPath :=
    path_join [cwd; "conversion"; "seed"; "env"; "Scripts"; "python.exe"] in
  let scriptPath :=
    path_join [cwd; "conversion"; "seed"; "inference.py"] in
  let command :=
    [ dquote ++ pythonPath ++ dquote; dquote ++ scriptPath ++ dquote;
      "--source " ++ dquote ++ sourcePath ++ dquote;
      "--target " ++ dquote ++ targetPath ++ dquote;
      "--output " ++ dquote ++ outputDir ++ dquote;
      "--diffusion-steps " ++ Js.show diffusionSteps;
      "--length-adjust 1.0";
      "--inference-cfg-rate 0.7" ] in
  if singing
  then push (push command "--f0-condition true")
            ("--semi-tone-shift " ++ Js.show semiToneShift)
  else push command "--auto-f0-adjust true".

Definition buildConversionCommand (cwd : string)
    (sourcePath targetPath outputDir : string) (singing : bool)
    (diffusionSteps semiToneShift : Z) : string :=
  Js.join " " (command_array cwd sourcePath targetPath outputDir singing
                             diffusionSteps semiToneShift).

Section Conversion.

Variable E : env.

Definition createTempDir : M string :=
  let base := match process_env_TEMP E with
              | Some t => if Js.truthy t then t else "C:\Windows\Temp"
              | None => "C:\Windows\Temp"
              end in
  u <- uuidv4 E ;;
  let tempDir := path_join [base; "discord-bot-temp"; u] in
  mkdirSync E tempDir ;;;
  ret tempDir.

Definition cleanupTempDir (dir : string) : M unit :=
  if Js.truthy dir then rmSync E dir else ret tt.

Definition downloadFile (url dir prefix : string) : M string :=
  response <- fetch E url ;;
  buffer <- arrayBuffer response ;;
  u <- uuidv4 E ;;
  let filePath := path_join [dir; prefix ++ "_" ++ u ++ ".wav"] in
  writeFileSync E filePath buffer ;;;
  ret filePath.

Definition getAudioDuration (filePath : string) : M float :=
  fun w =>
    let w1 := emit (EProbe filePath) w in
    match ffprobe E w filePath with
    | ProbeFailed m => (Thrown (ProbeError m), w1)
    | ProbeStdout d => (Returned d, w1)
    end.

Definition validateAudioDuration (filePath fileName : string) : M unit :=
  duration <- getAudioDuration filePath ;;
  if over_limit duration
  then throw (DurationExceeded fileName)
  else ret tt.

Definition processInteractionOptions (i : interaction) (tempDir : string)
  : M options :=
  let source := opt_source i in
  let target := opt_target i in
  let singing := opt_singing i in
  let diffusionSteps := opt_diffusion_steps i in
  let semiToneShift := or_zero (opt_semi_tone_shift i) in
  validateAudioFile source ;;;
  validateAudioFile target ;;;
  (if negb singing && negb (Z.eqb semiToneShift 0)
   then throw InvalidParameterCombination
   else ret tt) ;;;
  let diffusionSteps := determineDiffusionSteps singing diffusionSteps in
  sourcePath <- downloadFile (url source) tempDir "source" ;;
  targetPath <- downloadFile (url target) tempDir "target" ;;
  validateAudioDuration sourcePath "source" ;;;
  validateAudioDuration targetPath "target" ;;;
  ret {| sourcePath := sourcePath; targetPath := targetPath;
         singing := singing; diffusionSteps := diffusionSteps;
         semiToneShift := semiToneShift |}.

Definition executeCommand (command : string) : M unit :=
  fun w =>
    let w1 := emit (EExec command) w in
    let (failure, f) := child_process E w command in
    let w2 := with_fs f w1 in
    match failure with
    | Some m =>
        (Thrown (ExecutionError m),
         emit (EConsoleError "Execution error:" (ExecutionError m)) w2)
    | None => (Returned tt, w2)
    end.

Definition executeConversion (command tempDir : string) : M unit :=
  executeCommand command ;;;
  entries <- readdirSync tempDir ;;
  let outputFile := find (fun file => Js.startsWith file "vc_") entries in
  match outputFile with
  | None => throw OutputNotFound
  | Some file =>
      if negb (Js.truthy file)
      then throw OutputNotFound
      else editReply E {| content := "Voice conversion complete!";
                          files := [path_join [tempDir; file]] |}
  end.

Definition execute (i : interaction) : M unit :=
  deferReply E ;;;
  with_local "" (
    try_catch_finally
      ( created <- lift createTempDir ;;
        set_local created ;;;
        tempDir <- get_local ;;
        o <- lift (processInteractionOptions i tempDir) ;;
        tempDir <- get_local ;;
        let command :=
          buildConversionCommand (process_cwd E) (sourcePath o) (targetPath o)
            tempDir (singing o) (diffusionSteps o) (semiToneShift o) in
        tempDir <- get_local ;;
        lift (executeConversion command tempDir) )
      (fun error =>
         lift (console_error "Error in convert command:" error) ;;;
         promise_catch
           (lift (editReply E {| content := "Error: " ++ message error;
                                 files := [] |}))
           (fun e => lift (console_error "" e)))
      ( tempDir <- get_local ;;
        lift (cleanupTempDir tempDir) )).

End Conversion.

(* ================================================================== *)
(** ** The spec's reading of "extension" *)

(** Following the spec's words ("the declared filename's extension ...
    case-insensitive ... allow-list"): the extension of a file name is its
    suffix from the last dot on, the empty string when it has no dot. *)
Fixpoint extension (fileName : string) : string :=
  match fileName with
  | EmptyString => EmptyString
  | String c r =>
      match extension r with
      | EmptyString => if Ascii.eqb c "."%char then fileName else EmptyString
      | later => later
      end
  end.

(** Whether a string contains a dot. *)
Fixpoint has_dot (s : string) : bool :=
  match s with
  | EmptyString => false
  | String c r => Ascii.eqb c "."%char || has_dot r
  end.

Definition extension_allowed (fileName : string) : bool :=
  existsb (String.eqb (Js.toLowerCase (extension fileName)))
          VALID_AUDIO_EXTENSIONS.

(** The part of the command line that does not depend on the mode. *)
Definition fixed_arguments (cwd sourcePath targetPath outputDir : string)
    (diffusionSteps : Z) : string :=
  dquote ++
  path_join [cwd; "conversion"; "seed"; "env"; "Scripts"; "python.exe"] ++
  dquote ++ " " ++ dquote ++
  path_join [cwd; "conversion"; "seed"; "inference.py"] ++ dquote ++
  " --source " ++ dquote ++ sourcePath ++ dquote ++
  " --target " ++ dquote ++ targetPath ++ dquote ++
  " --output " ++ dquote ++ outputDir ++ dquote ++
  " --diffusion-steps " ++ Js.show diffusionSteps ++
  " --length-adjust 1.0 --inference-cfg-rate 0.7".

(** The statements of [execute]'s [try] block that follow the creation of
    the workspace [tempDir]. *)
Definition pipeline (E : env) (i : interaction) (tempDir : string) : M unit :=
  o <- processInteractionOptions E i tempDir ;;
  executeConversion E
    (buildConversionCommand (process_cwd E) (sourcePath o) (targetPath o)
       tempDir (singing o) (diffusionSteps o) (semiToneShift o))
    tempDir.

(** The [catch] block of [execute]. *)
Definition report (E : env) (e : error) : M unit :=
  console_error "Error in convert command:" e ;;;
  promise_catch
    (editReply E {| content := "Error: " ++ message e; files := [] |})
    (fun e' => console_error "" e').

(** The world in which the [finally] block of [execute] starts, when the
    workspace was created in world [w]. *)
Definition before_cleanup (E : env) (i : interaction) (tempDir : string)
    (w : world) : world :=
  match pipeline E i tempDir w with
  | (Returned _, w') => w'
  | (Thrown e, w') => snd (report E e w')
  end.

(** Events of the log that are removals, with their paths. *)
Fixpoint removals (l : list event) : list string :=
  match l with
  | [] => []
  | ERm p :: r => p :: removals r
  | _ :: r => removals r
  end.

(** The entries of a directory listing that carry the output prefix. *)
Definition outputs (entries : list string) : list string :=
  filter (fun file => Js.startsWith file "vc_") entries.

(** A computation that removes nothing. *)
Definition quiet {A} (c : M A) : Prop :=
  forall w, removals (log (snd (c w))) = removals (log w).

(* ================================================================== *)
(** ** Concrete environments used to exercise the statements *)

Module Sample.

Definition empty_world : world := {| fs := []; log := []; uuids := 0 |}.

(** A workspace directory [T] already on disk. *)
Definition ready_world : world :=
  {| fs := [("T", Dir)]; log := []; uuids := 0 |}.

Definition bytes_of (n : nat) : list Byte.byte := repeat Byte.x52 n.

(** An environment parameterised by what the network, ffprobe and the
    inference process answer, and by the fault, if any, that strikes the
    one filesystem call made right after the acknowledgement (the creation
    of the workspace). *)
Definition environment
    (net : string -> fetch_outcome) (probe : string -> probe_outcome)
    (run : world -> option string * filesystem) (mkdir_fault : option string)
  : env :=
  {| process_env_TEMP := Some "T";
     process_cwd := "C:\bot";
     uuid_source := fun n => match n with
                             | 0 => "u0" | 1 => "u1" | _ => "u2"
                             end;
     fs_unwritable := fun w p => match log w with
                                 | [EDeferReply] => mkdir_fault
                                 | _ => None
                                 end;
     http_fetch := fun _ u => net u;
     ffprobe := fun _ p => probe p;
     child_process := fun w _ => run w;
     discord_defer := fun _ => None;
     discord_edit := fun _ _ => None |}.

Definition wav (u n : string) : attachment := {| url := u; name := n |}.

Definition request (src tgt : string) (sing : bool) (steps shift : option Z)
  : interaction :=
  {| opt_source := wav "https://cdn/s" src;
     opt_target := wav "https://cdn/t" tgt;
     opt_singing := sing;
     opt_diffusion_steps := steps;
     opt_semi_tone_shift := shift |}.

(** The server answers every request with status 404 and an error page. *)
Definition not_found (u : string) : fetch_outcome :=
  Response 404 (Body (bytes_of 3)).

Definition serves (u : string) : fetch_outcome :=
  Response 200 (Body (bytes_of 4)).

Definition seconds (d : float) (p : string) : probe_outcome := ProbeStdout d.

(** The source lasts 31 s, every other file 10 s. *)
Definition long_source (p : string) : probe_outcome :=
  if Js.endsWith p "source_u0.wav" then ProbeStdout 31%float
  else ProbeStdout 10%float.

(** The target lasts 31 s, every other file 10 s. *)
Definition long_target (p : string) : probe_outcome :=
  if Js.endsWith p "target_u2.wav" then ProbeStdout 31%float
  else ProbeStdout 10%float.

(** An inference run that succeeds and leaves the given files in [dir]. *)
Definition produces (dir : string) (names : list string) (w : world)
  : option string * filesystem :=
  (None, (fs w ++ map (fun n => (path_join [dir; n], File [])) names)%list).

End Sample.

(* ================================================================== *)
(** ** Vocabulary for the event log of a job *)

(** A computation that only appends to the log, and only events that
    satisfy [P]. *)
Definition emits {A} (P : event -> Prop) (c : M A) : Prop :=
  forall w, exists new,
    log (snd (c w)) = (log w ++ new)%list /\ Forall P new.

(** What fetching and checking the attachments into [dir] may log. *)
Definition download_event (dir : string) (e : event) : Prop :=
  match e with
  | EFetch _ | EProbe _ => True
  | EWrite p => within dir p = true
  | _ => False
  end.

(** What running the conversion over [dir] may log. *)
Definition conversion_event (dir : string) (e : event) : Prop :=
  match e with
  | EExec _ | EConsoleError _ _ => True
  | EReaddir p => p = dir
  | EEditReply r =>
      content r = "Voice conversion complete!" /\
      exists file, Js.startsWith file "vc_" = true /\
                   files r = [path_join [dir; file]]
  | _ => False
  end.

(** What the [catch] block may log. *)
Definition report_event (e : event) : Prop :=
  match e with
  | EConsoleError _ _ => True
  | EEditReply r => files r = []
  | _ => False
  end.

(** What a job may log between creating and removing its workspace. *)
Definition job_event (dir : string) (e : event) : Prop :=
  download_event dir e \/ conversion_event dir e \/ report_event e.

Definition is_edit (e : event) : bool :=
  match e with
  | EEditReply _ => true
  | _ => false
  end.

(** How many times the log shows [editReply] being called. *)
Definition edits (l : list event) : nat := List.length (filter is_edit l).

(** The worlds a job started in [Sample.empty_world] goes through. *)
Module SampleRun.

(** After the acknowledgement. *)
Definition acknowledged : world :=
  {| fs := []; log := [EDeferReply]; uuids := 0 |}.

(** After the creation of the workspace. *)
Definition created : world :=
  {| fs := [("T", Dir); ("T\discord-bot-temp", Dir);
            ("T\discord-bot-temp\u0", Dir)];
     log := [EDeferReply; EMkdir "T\discord-bot-temp\u0"];
     uuids := 1 |}.

(** An environment in which the operating system refuses to touch what is
    already on disk: creating and writing new paths works, removing the
    workspace does not (the directory is still in use). *)
Definition locked : env :=
  {| process_env_TEMP := Some "T"; process_cwd := "C:\bot";
     uuid_source := fun n => match n with
                             | 0 => "u0" | 1 => "u1" | _ => "u2"
                             end;
     fs_unwritable := fun w p =>
       if exists_path (fs w) p
       then Some "EBUSY: resource busy or locked, rmdir"
       else None;
     http_fetch := fun _ _ => Response 200 (Body []);
     ffprobe := fun _ _ => ProbeStdout 10%float;
     child_process := fun w _ =>
       (None, (fs w ++ [("T\discord-bot-temp\u0\vc_out.wav", File [])])%list);
     discord_defer := fun _ => None;
     discord_edit := fun _ _ => None |}.

(** An environment handing out two identifiers the way [uuidv4()] writes
    them (shortened). *)
Definition two_jobs : env :=
  {| process_env_TEMP := Some "T"; process_cwd := "C:\bot";
     uuid_source := fun n => match n with
                             | 0 => "1b9d6bcd-bbfd-4b2d"
                             | _ => "6ec0bd7f-11c0-43da"
                             end;
     fs_unwritable := fun _ _ => None;
     http_fetch := fun _ _ => NetworkFailure "offline";
     ffprobe := fun _ _ => ProbeFailed "missing";
     child_process := fun w _ => (None, fs w);
     discord_defer := fun _ => None;
     discord_edit := fun _ _ => None |}.

(** An environment in which Discord rejects the acknowledgement. *)
Definition unacknowledged : env :=
  {| process_env_TEMP := None; process_cwd := "C:\bot";
     uuid_source := fun _ => "u";
     fs_unwritable := fun _ _ => None;
     http_fetch := fun _ _ => NetworkFailure "offline";
     ffprobe := fun _ _ => ProbeFailed "missing";
     child_process := fun w _ => (None, fs w);
     discord_defer := fun _ => Some "Unknown interaction";
     discord_edit := fun _ _ => None |}.

End SampleRun.

(** The directory under which [createTempDir] puts the workspaces. *)
Definition temp_base (E : env) : string :=
  match process_env_TEMP E with
  | Some t => if Js.truthy t then t else "C:\Windows\Temp"
  | None => "C:\Windows\Temp"
  end.

(* ================================================================== *)
(** ** index.js *)

Module Index.

(** A command module: what [require] of a file under [commands/] exports.
    Of [data] only the name is kept; [execute_id] says which function the
    module exports as [execute].  What that function does when it is called
    is given apart (see [handleInteractionCreate]), so that a handler may
    act on the whole client, registry included, as the [client] argument it
    is passed allows. *)
Record command : Type := {
  data_name : string;
  execute_id : string
}.

(** [module.exports] of [commands/conversion.js]. *)
Definition conversion_command : command :=
  {| data_name := "conversion"; execute_id := "commands/conversion.js" |}.

(** [client.commands]: a [Collection], that is a [Map] in insertion
    order. *)
Definition collection : Type := list (string * command).

(** [Map.prototype.get]. *)
Fixpoint collection_get (key : string) (c : collection) : option command :=
  match c with
  | [] => None
  | (k, v) :: r => if String.eqb k key then Some v else collection_get key r
  end.

(** [Map.prototype.set]: the value of an existing key is replaced where it
    stands, a new key goes to the end. *)
Fixpoint collection_set (key : string) (v : command) (c : collection)
  : collection :=
  match c with
  | [] => [(key, v)]
  | (k, old) :: r =>
      if String.eqb k key then (k, v) :: r
      else (k, old) :: collection_set key v r
  end.

(** What the bot itself does towards the console, the module loader and
    Discord, in order. *)
Inductive bot_event : Type :=
| BLog (msg : string)
| BConsoleError (label : string) (e : error)
| BRequire (filePath : string)
| BSetPresence
| BDeploy (names : list string)
| BReply (content : string) (ephemeral : bool).

(** The state of the process: the registry, what the bot did, and the world
    the jobs act on. *)
Record client : Type := {
  commands : collection;
  console : list bot_event;
  jobs : world
}.

Definition note (e : bot_event) (s : client) : client :=
  {| commands := commands s; console := (console s ++ [e])%list;
     jobs := jobs s |}.

(** An incoming interaction, as [handleInteractionCreate] reads it. *)
Record chat_interaction : Type := {
  isChatInputCommand : bool;
  commandName : string;
  payload : interaction
}.

(** [try { body } catch (error) { handler }]. *)
Definition try_catch {S A} (body : Comp S A) (handler : error -> Comp S A)
  : Comp S A :=
  fun s =>
    match body s with
    | (Returned a, s1) => (Returned a, s1)
    | (Thrown e, s1) => handler e s1
    end.

(** [array.includes(x)] on strings. *)
Definition includes (l : list string) (x : string) : bool :=
  existsb (String.eqb x) l.

(** [commandFiles]: the entries of [commands/] whose name ends in [.js]. *)
Definition commandFiles (listing : list string) : list string :=
  filter (fun file => Js.endsWith file ".js") listing.

Section Bot.

(** The outside of [index.js]: what [require] gives for a path, what the
    [execute] of a module does when called with an interaction and the
    client, and the message with which Discord rejects a call, if it
    does. *)
Variable require : string -> outcome command.
Variable execute_of : command -> interaction -> Comp client unit.
Variable reply_rejects : client -> option string.
Variable presence_rejects : client -> option string.
Variable deploy_rejects : client -> option string.

Definition console_log (msg : string) : Comp client unit :=
  fun s => (Returned tt, note (BLog msg) s).

Definition console_error (label : string) (e : error) : Comp client unit :=
  fun s => (Returned tt, note (BConsoleError label e) s).

Definition require_module (filePath : string) : Comp client command :=
  fun s => (require filePath, note (BRequire filePath) s).

(** [client.commands.set(name, command)]. *)
Definition set_command (key : string) (v : command) : Comp client unit :=
  fun s => (Returned tt,
            {| commands := collection_set key v (commands s);
               console := console s; jobs := jobs s |}).

(** [client.commands.get(name)]. *)
Definition get_command (key : string) : Comp client (option command) :=
  fun s => (Returned (collection_get key (commands s)), s).

(** A computation on the world of the jobs, run inside the client: what
    the [execute] of [commands/conversion.js], which never looks at the
    client, amounts to. *)
Definition run_job (c : M unit) : Comp client unit :=
  fun s =>
    let (r, w) := c (jobs s) in
    (r, {| commands := commands s; console := console s; jobs := w |}).

(** [interaction.reply({ content, ephemeral })]. *)
Definition interaction_reply (content : string) (ephemeral : bool)
  : Comp client unit :=
  fun s =>
    let s1 := note (BReply content ephemeral) s in
    match reply_rejects s with
    | Some m => (Thrown (ReplyError m), s1)
    | None => (Returned tt, s1)
    end.

(** [client.user.setPresence(...)]. *)
Definition discord_setPresence : Comp client unit :=
  fun s =>
    let s1 := note BSetPresence s in
    match presence_rejects s with
    | Some m => (Thrown (ReplyError m), s1)
    | None => (Returned tt, s1)
    end.

(** [client.application.commands.set(data)]. *)
Definition discord_set_commands (names : list string) : Comp client unit :=
  fun s =>
    let s1 := note (BDeploy names) s in
    match deploy_rejects s with
    | Some m => (Thrown (ReplyError m), s1)
    | None => (Returned tt, s1)
    end.

(** The loop of [loadCommands], over the files still to load. *)
Fixpoint loadCommands_from (commandsPath : string) (files : list string)
  : Comp client unit :=
  match files with
  | [] => ret tt
  | file :: rest =>
      let filePath := path_join [commandsPath; file] in
      try_catch
        ( command <- require_module filePath ;;
          set_command (data_name command) command )
        (fun error =>
           console_error ("Error loading command " ++ file ++ ":") error) ;;;
      loadCommands_from commandsPath rest
  end.

(** [loadCommands], for a [commands/] directory with the given listing. *)
Definition loadCommands (commandsPath : string) (listing : list string)
  : Comp client unit :=
  loadCommands_from commandsPath (commandFiles listing).

Definition deployCommands : Comp client unit :=
  try_catch
    ( console_log "Deploying commands..." ;;;
      data <- (fun s => (Returned (map (fun kv => data_name (snd kv))
                                       (commands s)), s)) ;;
      discord_set_commands data ;;;
      console_log "Commands deployed!" )
    (fun error => console_error "Error deploying commands:" error).

Definition setPresence : Comp client unit :=
  try_catch discord_setPresence
    (fun error => console_error "Error setting presence:" error).

(** [handleReady], for a client whose user has the given tag. *)
Definition handleReady (tag : string) (argv : list string)
  : Comp client unit :=
  try_catch
    ( console_log ("Running on " ++ tag ++ "!") ;;;
      setPresence ;;;
      if includes argv "--deploy" then deployCommands else ret tt )
    (fun error => console_error "Error during initialization:" error).

Definition handleInteractionCreate (x : chat_interaction)
  : Comp client unit :=
  if negb (isChatInputCommand x) then ret tt
  else
    command <- get_command (commandName x) ;;
    match command with
    | None => ret tt
    | Some command =>
        try_catch
          (execute_of command (payload x))
          (fun error =>
             console_error
               ("Error executing command " ++ commandName x ++ ":") error ;;;
             try_catch
               (interaction_reply
                  "There was an error while executing this command!" true)
               (fun replyError =>
                  console_error "Error sending error message:" replyError))
    end.

End Bot.

(** The modules that loaded, in the order of the files. *)
Fixpoint loaded (require : string -> outcome command)
    (commandsPath : string) (files : list string) : list command :=
  match files with
  | [] => []
  | file :: rest =>
      match require (path_join [commandsPath; file]) with
      | Returned c => c :: loaded require commandsPath rest
      | Thrown _ => loaded require commandsPath rest
      end
  end.

(** The paths the log shows [require] being called on. *)
Fixpoint required (l : list bot_event) : list string :=
  match l with
  | [] => []
  | BRequire p :: r => p :: required r
  | _ :: r => required r
  end.

(** The replies the log shows. *)
Fixpoint replies (l : list bot_event) : list (string * bool) :=
  match l with
  | [] => []
  | BReply c e :: r => (c, e) :: replies r
  | _ :: r => replies r
  end.

(** The command lists the log shows being registered with Discord. *)
Fixpoint deployments (l : list bot_event) : list (list string) :=
  match l with
  | [] => []
  | BDeploy names :: r => names :: deployments r
  | _ :: r => deployments r
  end.

End Index.

(* ================================================================== *)
(** ** Facts about the string helpers *)

Lemma endsWith_unfold (s suf : string) :
  Js.endsWith s suf =
  String.eqb s suf ||
  match s with
  | EmptyString => false
  | String _ r => Js.endsWith r suf
  end.
Proof. destruct s; reflexivity. Qed.

(** [endsWith] holds exactly of the strings that have [suf] at their end. *)
Lemma endsWith_iff (s suf : string) :
  Js.endsWith s suf = true <-> exists p, s = p ++ suf.
Proof.
  induction s as [|c r IH]; rewrite endsWith_unfold.
  - rewrite orb_false_r, String.eqb_eq. split.
    + intros <-. now exists "".
    + intros [p Hp]. destruct p; simpl in Hp; [auto | discriminate].
  - rewrite orb_true_iff, String.eqb_eq, IH. split.
    + intros [<- | [p ->]]; [now exists "" | now exists (String c p)].
    + intros [[|c' p] Hp]; simpl in Hp.
      * now left.
      * injection Hp as -> ->. right. now exists p.
Qed.

Lemma lower_ascii_dot (c : ascii) :
  Js.lower_ascii c = "."%char -> c = "."%char.
Proof.
  destruct c as [[] [] [] [] [] [] [] []]; vm_compute; congruence.
Qed.

Lemma lower_ascii_dot_eqb (c : ascii) :
  Ascii.eqb (Js.lower_ascii c) "."%char = Ascii.eqb c "."%char.
Proof.
  destruct (Ascii.eqb_spec c "."%char) as [-> | Hc]; [reflexivity|].
  destruct (Ascii.eqb_spec (Js.lower_ascii c) "."%char) as [Hl | _];
    [|reflexivity].
  elim Hc. now apply lower_ascii_dot.
Qed.

Lemma has_dot_lower (s : string) : has_dot (Js.toLowerCase s) = has_dot s.
Proof.
  induction s as [|c r IH]; simpl; [reflexivity|].
  now rewrite lower_ascii_dot_eqb, IH.
Qed.

Lemma extension_unfold (c : ascii) (r : string) :
  extension (String c r) =
  match extension r with
  | EmptyString => if Ascii.eqb c "."%char then String c r else EmptyString
  | later => later
  end.
Proof. reflexivity. Qed.

Lemma extension_no_dot (s : string) :
  extension s = EmptyString <-> has_dot s = false.
Proof.
  induction s as [|c r IH]; [simpl; tauto|].
  rewrite extension_unfold. cbn [has_dot]. rewrite orb_false_iff, <- IH.
  destruct (extension r) eqn:Hr.
  - destruct (Ascii.eqb c "."%char); split; try tauto; try discriminate.
    intros [? _]. discriminate.
  - split; [discriminate | intros [_ ?]; discriminate].
Qed.

(** The test of the source and the extension of the spec agree. *)
Lemma endsWith_wav_extension (s : string) :
  Js.endsWith (Js.toLowerCase s) ".wav" =
  String.eqb (Js.toLowerCase (extension s)) ".wav".
Proof.
  induction s as [|c r IH]; [reflexivity|].
  rewrite endsWith_unfold, extension_unfold. cbn [Js.toLowerCase].
  fold (Js.toLowerCase (String c r)). rewrite IH.
  destruct (extension r) as [|d e] eqn:Hr.
  - cbn [Js.toLowerCase]. rewrite orb_false_r.
    destruct (Ascii.eqb c "."%char) eqn:Hc; [reflexivity|].
    cbn. now rewrite lower_ascii_dot_eqb, Hc.
  - destruct (String.eqb_spec (String (Js.lower_ascii c) (Js.toLowerCase r))
                               ".wav") as [Heq | _]; [|reflexivity].
    assert (Hd : has_dot r = false).
    { rewrite <- has_dot_lower. injection Heq as _ ->. reflexivity. }
    apply extension_no_dot in Hd. congruence.
Qed.

Lemma has_valid_extension_spec (fileName : string) :
  has_valid_extension fileName = extension_allowed fileName.
Proof.
  unfold has_valid_extension, extension_allowed, VALID_AUDIO_EXTENSIONS.
  cbn [existsb]. now rewrite endsWith_wav_extension.
Qed.

(* ================================================================== *)
(** ** Parameter resolution *)

(** C4. [determineDiffusionSteps] is a function of its two arguments alone
    (it takes no world and returns none): with no user value it gives 60 in
    singing mode and 25 otherwise, and a user value is returned as it is. *)
Theorem determineDiffusionSteps_resolves :
  determineDiffusionSteps true None = 60%Z /\
  determineDiffusionSteps false None = 25%Z /\
  (forall (singing : bool) (userValue : Z),
      determineDiffusionSteps singing (Some userValue) = userValue).
Proof.
  repeat split. intros [|] userValue; reflexivity.
Qed.

(* ================================================================== *)
(** ** Validation before download *)

Section Validation.

Variable E : env.

Lemma validateAudioFile_rejects (file : attachment) (w : world) :
  extension_allowed (name file) = false ->
  validateAudioFile file w = (Thrown InvalidFormat, w).
Proof.
  intros H. unfold validateAudioFile.
  now rewrite has_valid_extension_spec, H.
Qed.

Lemma validateAudioFile_accepts (file : attachment) (w : world) :
  extension_allowed (name file) = true ->
  validateAudioFile file w = (Returned tt, w).
Proof.
  intros H. unfold validateAudioFile.
  now rewrite has_valid_extension_spec, H.
Qed.

(** What the first three statements of [processInteractionOptions] decide,
    whatever comes after them. *)
Lemma processInteractionOptions_checks (i : interaction) (tempDir : string)
    (w : world) :
  extension_allowed (name (opt_source i)) &&
  extension_allowed (name (opt_target i)) = false ->
  processInteractionOptions E i tempDir w = (Thrown InvalidFormat, w).
Proof.
  intros H. unfold processInteractionOptions, bind.
  destruct (extension_allowed (name (opt_source i))) eqn:Hs.
  - rewrite (validateAudioFile_accepts _ _ Hs).
    simpl in H. now rewrite (validateAudioFile_rejects _ _ H).
  - now rewrite (validateAudioFile_rejects _ _ Hs).
Qed.

End Validation.

(** C6. When the extension of the source's or of the target's declared
    name, lower-cased, is not in the allow-list, [processInteractionOptions]
    throws [InvalidFormat] and hands back the world it was given: nothing
    was fetched, written or logged. *)
Theorem invalid_extension_fails_before_download
    (E : env) (i : interaction) (tempDir : string) (w : world) :
  extension_allowed (name (opt_source i)) = false \/
  extension_allowed (name (opt_target i)) = false ->
  processInteractionOptions E i tempDir w = (Thrown InvalidFormat, w).
Proof.
  intros H. apply processInteractionOptions_checks.
  destruct H as [-> | ->]; [reflexivity | apply andb_false_r].
Qed.

Lemma invalid_extension_witness :
  let i := Sample.request "voice.MP3" "b.wav" true None None in
  let E := Sample.environment Sample.serves (Sample.seconds 10%float)
             (Sample.produces "T" []) None in
  (extension_allowed (name (opt_source i)) = false \/
   extension_allowed (name (opt_target i)) = false) /\
  processInteractionOptions E i "T" Sample.ready_world =
  (Thrown InvalidFormat, Sample.ready_world).
Proof.
  split.
  - left. reflexivity.
  - apply invalid_extension_fails_before_download. left. reflexivity.
Defined.

(** C5 (as amended). With singing mode off and a non-zero semitone shift,
    [processInteractionOptions] always throws and leaves the world as it
    was; the error is [InvalidParameterCombination] when both declared names
    pass the extension check, and [InvalidFormat], from the check that runs
    first, when one of them does not. *)
Theorem shift_without_singing_fails
    (E : env) (i : interaction) (tempDir : string) (w : world) (n : Z) :
  opt_singing i = false ->
  opt_semi_tone_shift i = Some n ->
  n <> 0%Z ->
  processInteractionOptions E i tempDir w =
  (Thrown (if extension_allowed (name (opt_source i)) &&
              extension_allowed (name (opt_target i))
           then InvalidParameterCombination
           else InvalidFormat), w).
Proof.
  intros Hsing Hshift Hn.
  destruct (extension_allowed (name (opt_source i)) &&
            extension_allowed (name (opt_target i))) eqn:Hext.
  - apply andb_true_iff in Hext as [Hs Ht].
    unfold processInteractionOptions, bind.
    rewrite (validateAudioFile_accepts _ _ Hs).
    rewrite (validateAudioFile_accepts _ _ Ht).
    rewrite Hsing, Hshift. cbn [or_zero negb andb].
    destruct (Z.eqb_spec n 0); [contradiction | reflexivity].
  - now apply processInteractionOptions_checks.
Qed.

Lemma shift_without_singing_witness :
  let i := Sample.request "a.wav" "b.WAV" false None (Some 2%Z) in
  let E := Sample.environment Sample.serves (Sample.seconds 10%float)
             (Sample.produces "T" []) None in
  processInteractionOptions E i "T" Sample.ready_world =
  (Thrown InvalidParameterCombination, Sample.ready_world).
Proof.
  apply (shift_without_singing_fails
           (Sample.environment Sample.serves (Sample.seconds 10%float)
              (Sample.produces "T" []) None)
           (Sample.request "a.wav" "b.WAV" false None (Some 2%Z))
           "T" Sample.ready_world (n := 2%Z)).
  - reflexivity.
  - reflexivity.
  - lia.
Defined.

(** C5 as first stated does not hold: with a source declared as an MP3 the
    same request is refused for its format, not for the combination. *)
Lemma shift_without_singing_counterexample :
  let i := Sample.request "a.mp3" "b.wav" false None (Some 2%Z) in
  let E := Sample.environment Sample.serves (Sample.seconds 10%float)
             (Sample.produces "T" []) None in
  opt_singing i = false /\
  or_zero (opt_semi_tone_shift i) <> 0%Z /\
  fst (processInteractionOptions E i "T" Sample.ready_world) =
    Thrown InvalidFormat /\
  fst (processInteractionOptions E i "T" Sample.ready_world) <>
    Thrown InvalidParameterCombination.
Proof.
  cbv zeta. split; [reflexivity|]. split; [discriminate|].
  split; [reflexivity|]. vm_compute. discriminate.
Qed.

(* ================================================================== *)
(** ** Duration ceiling *)

(** C7. Whatever the file and whatever label it is checked under, when
    ffprobe's output parses to a double greater than 30 the check throws
    [DurationExceeded] with that label, and at exactly 30 it returns. *)
Theorem duration_over_ceiling_fails
    (E : env) (filePath fileName : string) (w : world) (duration : float) :
  ffprobe E w filePath = ProbeStdout duration ->
  (PrimFloat.ltb 30%float duration = true ->
   fst (validateAudioDuration E filePath fileName w) =
   Thrown (DurationExceeded fileName)) /\
  (duration = 30%float ->
   fst (validateAudioDuration E filePath fileName w) = Returned tt).
Proof.
  intros Hprobe.
  unfold validateAudioDuration, bind, getAudioDuration, over_limit,
    MAX_AUDIO_DURATION.
  rewrite Hprobe. split.
  - intros ->. reflexivity.
  - intros ->. reflexivity.
Qed.

Lemma duration_over_ceiling_witness :
  let E := Sample.environment Sample.serves Sample.long_source
             (Sample.produces "T" []) None in
  fst (validateAudioDuration E "T\source_u0.wav" "source"
         Sample.ready_world) = Thrown (DurationExceeded "source") /\
  fst (validateAudioDuration E "T\target_u1.wav" "target"
         Sample.ready_world) = Returned tt /\
  fst (validateAudioDuration
         (Sample.environment Sample.serves (Sample.seconds 30%float)
            (Sample.produces "T" []) None)
         "T\target_u1.wav" "target" Sample.ready_world) = Returned tt.
Proof.
  cbv zeta. split; [|split].
  - apply (duration_over_ceiling_fails
             (Sample.environment Sample.serves Sample.long_source
                (Sample.produces "T" []) None)
             "T\source_u0.wav" "source" Sample.ready_world
             (duration := 31%float)); reflexivity.
  - reflexivity.
  - apply (duration_over_ceiling_fails
             (Sample.environment Sample.serves (Sample.seconds 30%float)
                (Sample.produces "T" []) None)
             "T\target_u1.wav" "target" Sample.ready_world
             (duration := 30%float)); reflexivity.
Defined.

(* ================================================================== *)
(** ** The command line *)

Lemma append_assoc (a b c : string) : (a ++ b) ++ c = a ++ b ++ c.
Proof. induction a as [|x a IH]; simpl; [reflexivity | now rewrite IH]. Qed.

Lemma join_cons2 (sp x y : string) (l : list string) :
  Js.join sp (x :: y :: l) = x ++ sp ++ Js.join sp (y :: l).
Proof. reflexivity. Qed.

(** The text [Js.show] writes for an integer is its decimal numeral: read
    back as a decimal, it gives the integer. *)
Lemma show_reads_back (n : Z) :
  option_map Z.of_int (NilZero.int_of_string (Js.show n)) = Some n.
Proof.
  unfold Js.show. rewrite NilZero.isi.
  - cbn [option_map]. f_equal. apply DecimalZ.of_to.
  - destruct n; cbn; intros H; try discriminate. injection H as H.
    now apply Unsigned.to_uint_nonnil in H.
  - destruct n; cbn; intros H; try discriminate. injection H as H.
    now apply Unsigned.to_uint_nonnil in H.
Qed.

(** C8. The assembled command line is the interpreter and script, the
    source, target and output paths, the resolved step count and the two
    fixed arguments, followed in singing mode by
    [--f0-condition true --semi-tone-shift <shift>] and otherwise by
    [--auto-f0-adjust true]; the array it is joined from never holds the
    arguments of the other mode.  The step count and the shift stand there
    as their decimal numerals: what is written for an integer reads back
    as that integer. *)
Theorem command_line_contract
    (cwd sourcePath targetPath outputDir : string)
    (diffusionSteps semiToneShift : Z) :
  let fixed :=
    fixed_arguments cwd sourcePath targetPath outputDir diffusionSteps in
  let array := command_array cwd sourcePath targetPath outputDir in
  buildConversionCommand cwd sourcePath targetPath outputDir true
    diffusionSteps semiToneShift =
    fixed ++ " --f0-condition true --semi-tone-shift " ++
    Js.show semiToneShift /\
  ~ In "--auto-f0-adjust true" (array true diffusionSteps semiToneShift) /\
  buildConversionCommand cwd sourcePath targetPath outputDir false
    diffusionSteps semiToneShift =
    fixed ++ " --auto-f0-adjust true" /\
  ~ In "--f0-condition true" (array false diffusionSteps semiToneShift) /\
  (forall shown : string,
      ~ In ("--semi-tone-shift " ++ shown)
           (array false diffusionSteps semiToneShift)) /\
  option_map Z.of_int (NilZero.int_of_string (Js.show diffusionSteps)) =
    Some diffusionSteps /\
  option_map Z.of_int (NilZero.int_of_string (Js.show semiToneShift)) =
    Some semiToneShift.
Proof.
  cbv zeta.
  unfold buildConversionCommand, command_array, fixed_arguments, push.
  cbn [app]. rewrite !join_cons2. cbn [Js.join].
  split; [|split; [|split; [|split; [|split; [|split]]]]].
  - rewrite !append_assoc. reflexivity.
  - cbn. intuition discriminate.
  - rewrite !append_assoc. reflexivity.
  - cbn. intuition discriminate.
  - intros shown. cbn. intuition discriminate.
  - apply show_reads_back.
  - apply show_reads_back.
Qed.

(** The two command lines of the spec's scenarios, digit for digit. *)
Lemma command_line_contract_witness :
  let python := "C:\bot\conversion\seed\env\Scripts\python.exe" in
  let script := "C:\bot\conversion\seed\inference.py" in
  let quoted (s : string) := dquote ++ s ++ dquote in
  buildConversionCommand "C:\bot" "T\s.wav" "T\t.wav" "T" true 60 (-3) =
    quoted python ++ " " ++ quoted script ++
    " --source " ++ quoted "T\s.wav" ++ " --target " ++ quoted "T\t.wav" ++
    " --output " ++ quoted "T" ++
    " --diffusion-steps 60 --length-adjust 1.0 --inference-cfg-rate 0.7 --f0-condition true --semi-tone-shift -3" /\
  buildConversionCommand "C:\bot" "T\s.wav" "T\t.wav" "T" false 25 0 =
    quoted python ++ " " ++ quoted script ++
    " --source " ++ quoted "T\s.wav" ++ " --target " ++ quoted "T\t.wav" ++
    " --output " ++ quoted "T" ++
    " --diffusion-steps 25 --length-adjust 1.0 --inference-cfg-rate 0.7 --auto-f0-adjust true".
Proof.
  cbv zeta. split.
  - exact (proj1 (command_line_contract "C:\bot" "T\s.wav" "T\t.wav" "T"
                    60 (-3))).
  - exact (proj1 (proj2 (proj2
             (command_line_contract "C:\bot" "T\s.wav" "T\t.wav" "T"
                25 0)))).
Defined.

(** Scenario A of the spec: speech mode, steps omitted. *)
Example scenario_A_command :
  Js.endsWith
    (buildConversionCommand "C:\bot" "a.wav" "b.wav" "out" false
       (determineDiffusionSteps false None) (or_zero None))
    " --diffusion-steps 25 --length-adjust 1.0 --inference-cfg-rate 0.7 --auto-f0-adjust true"
  = true.
Proof. reflexivity. Qed.

(** Scenario B of the spec: singing mode, shift 3, steps omitted. *)
Example scenario_B_command :
  Js.endsWith
    (buildConversionCommand "C:\bot" "a.wav" "b.wav" "out" true
       (determineDiffusionSteps true None) (or_zero (Some 3%Z)))
    " --diffusion-steps 60 --length-adjust 1.0 --inference-cfg-rate 0.7 --f0-condition true --semi-tone-shift 3"
  = true.
Proof. reflexivity. Qed.

(* ================================================================== *)
(** ** Fetching an attachment *)

Lemma fs_write_In (p : string) (b : list Byte.byte) (f : filesystem) :
  In (p, File b) (fs_write p b f).
Proof.
  unfold fs_write. destruct (exists_path f p) eqn:Hex.
  - apply existsb_exists in Hex as [e [Hin Heq]].
    apply in_map_iff. exists e. now rewrite Heq.
  - apply in_or_app. right. now left.
Qed.

(** C2 (as amended). On a writable filesystem [downloadFile] throws
    [DownloadError] exactly when the request or the reading of its body
    fails, and then writes nothing; a response whose body can be read is
    written to [<dir>\<prefix>_<uuid>.wav] and that path returned, whatever
    its status: the status is never looked at. *)
Theorem download_ignores_status
    (E : env) (url dir prefix : string) (w : world) :
  (forall (w' : world) (p : string), fs_unwritable E w' p = None) ->
  match http_fetch E w url with
  | NetworkFailure m | Response _ (BodyFailed m) =>
      downloadFile E url dir prefix w =
      (Thrown (DownloadError m), emit (EFetch url) w)
  | Response _ (Body bytes) =>
      let filePath :=
        path_join [dir; prefix ++ "_" ++ uuid_source E (uuids w) ++ ".wav"] in
      fst (downloadFile E url dir prefix w) = Returned filePath /\
      In (filePath, File bytes) (fs (snd (downloadFile E url dir prefix w)))
  end.
Proof.
  intros Hwritable.
  unfold downloadFile, bind, fetch, arrayBuffer, uuidv4, writeFileSync.
  destruct (http_fetch E w url) as [m | status [m | bytes]];
    cbn [snd fst throw ret]; try reflexivity.
  rewrite Hwritable. cbn [fst snd with_fs fs emit uuids].
  split; [reflexivity | apply fs_write_In].
Qed.

Lemma download_ignores_status_witness :
  let E := Sample.environment Sample.not_found (Sample.seconds 10%float)
             (Sample.produces "T" []) None in
  let r := downloadFile E "https://cdn/s" "T" "source" Sample.ready_world in
  fst r = Returned "T\source_u0.wav" /\
  In ("T\source_u0.wav", File (Sample.bytes_of 3)) (fs (snd r)).
Proof.
  apply (download_ignores_status
           (Sample.environment Sample.not_found (Sample.seconds 10%float)
              (Sample.produces "T" []) None)
           "https://cdn/s" "T" "source" Sample.ready_world).
  intros w' p. cbn. destruct (log w') as [|[] []]; reflexivity.
Defined.

(** C2 as first stated does not hold: a 404 answer is not an error for
    [downloadFile], and its body ends up in the workspace. *)
Lemma download_non_success_counterexample :
  let E := Sample.environment Sample.not_found (Sample.seconds 10%float)
             (Sample.produces "T" []) None in
  let r := downloadFile E "https://cdn/s" "T" "source" Sample.ready_world in
  http_fetch E Sample.ready_world "https://cdn/s" =
    Response 404 (Body (Sample.bytes_of 3)) /\
  response_ok 404 = false /\
  fst r = Returned "T\source_u0.wav" /\
  fs (snd r) = [("T", Dir);
                ("T\source_u0.wav", File (Sample.bytes_of 3))].
Proof.
  cbv zeta. split; [|split; [|split]]; reflexivity.
Qed.

(* ================================================================== *)
(** ** Locating the output *)

Lemma find_outputs (entries : list string) :
  find (fun file => Js.startsWith file "vc_") entries =
  hd_error (outputs entries).
Proof.
  unfold outputs. induction entries as [|x l IH]; [reflexivity|].
  cbn [find filter]. destruct (Js.startsWith x "vc_"); [reflexivity | exact IH].
Qed.

Lemma outputs_prefixed (entries : list string) (file : string) :
  In file (outputs entries) -> Js.startsWith file "vc_" = true.
Proof. unfold outputs. intros H. now apply filter_In in H. Qed.

Lemma prefixed_truthy (file : string) :
  Js.startsWith file "vc_" = true -> Js.truthy file = true.
Proof. destruct file; [discriminate | reflexivity]. Qed.

(** C3 (as amended). After a run of the external process that reports no
    error, with the workspace still a directory: when no entry of the
    workspace starts with [vc_] the job throws [OutputNotFound]; when one or
    several do, the first in listing order is attached to the reply and the
    others are ignored, which is no error. *)
Theorem output_lookup
    (E : env) (command tempDir : string) (w : world) (after : filesystem) :
  child_process E w command = (None, after) ->
  is_dir after tempDir = true ->
  let listed := emit (EReaddir tempDir)
                  (with_fs after (emit (EExec command) w)) in
  match outputs (fs_children tempDir after) with
  | [] =>
      executeConversion E command tempDir w = (Thrown OutputNotFound, listed)
  | first :: _ =>
      executeConversion E command tempDir w =
      editReply E {| content := "Voice conversion complete!";
                     files := [path_join [tempDir; first]] |} listed
  end.
Proof.
  intros Hrun Hdir listed.
  unfold executeConversion, bind, executeCommand, readdirSync.
  rewrite Hrun. cbn [with_fs fs emit]. rewrite Hdir, find_outputs.
  destruct (outputs (fs_children tempDir after)) as [|first rest] eqn:Hout;
    [reflexivity|].
  cbn [hd_error].
  rewrite (prefixed_truthy first); [reflexivity|].
  apply (outputs_prefixed (fs_children tempDir after)).
  rewrite Hout. now left.
Qed.

Lemma output_lookup_witness :
  let E := Sample.environment Sample.serves (Sample.seconds 10%float)
             (Sample.produces "T" ["source_u0.wav"]) None in
  executeConversion E "run" "T" Sample.ready_world =
  (Thrown OutputNotFound,
   {| fs := [("T", Dir); ("T\source_u0.wav", File [])];
      log := [EExec "run"; EReaddir "T"];
      uuids := 0 |}).
Proof.
  exact (output_lookup
           (Sample.environment Sample.serves (Sample.seconds 10%float)
              (Sample.produces "T" ["source_u0.wav"]) None)
           "run" "T" Sample.ready_world
           (after := [("T", Dir); ("T\source_u0.wav", File [])])
           eq_refl eq_refl).
Defined.

(** C3 as first stated does not hold: two entries with the prefix are not
    an error; the job replies with the first of them. *)
Lemma several_outputs_counterexample :
  let E := Sample.environment Sample.serves (Sample.seconds 10%float)
             (Sample.produces "T" ["vc_b.wav"; "vc_a.wav"]) None in
  let r := executeConversion E "run" "T" Sample.ready_world in
  outputs (fs_children "T" (fs (snd r))) = ["vc_b.wav"; "vc_a.wav"] /\
  fst r = Returned tt /\
  last (log (snd r)) EDeferReply =
    EEditReply {| content := "Voice conversion complete!";
                  files := ["T\vc_b.wav"] |}.
Proof.
  cbv zeta. split; [|split]; reflexivity.
Qed.

(* ================================================================== *)
(** ** Order of downloads and duration checks *)

Ltac case_innermost :=
  match goal with
  | |- context [match ?x with _ => _ end] =>
      lazymatch x with
      | context [match _ with _ => _ end] => fail
      | _ => destruct x eqn:?
      end
  end.

Ltac run_step :=
  unfold bind, ret, throw;
  cbn beta iota delta [fst snd fs log uuids emit with_fs negb andb].

(** C10. Whenever [processInteractionOptions] returns, or stops because a
    file is too long, what it did before is in this order: fetch and write
    the source, fetch and write the target, probe the source, and only then
    probe the target.  A source that is too long therefore stops the job
    after the target has been fetched and written, and before the target is
    probed. *)
Theorem downloads_precede_duration_checks
    (E : env) (i : interaction) (tempDir : string) (w : world) :
  let downloads sp tp :=
    [EFetch (url (opt_source i)); EWrite sp;
     EFetch (url (opt_target i)); EWrite tp] in
  match processInteractionOptions E i tempDir w with
  | (Returned o, w') =>
      log w' = (log w ++ downloads (sourcePath o) (targetPath o) ++
                [EProbe (sourcePath o); EProbe (targetPath o)])%list
  | (Thrown (DurationExceeded label), w') =>
      exists (sp tp : string) (bytes : list Byte.byte),
        In (tp, File bytes) (fs w') /\
        log w' = (log w ++ downloads sp tp ++
                  (if String.eqb label "source"
                   then [EProbe sp]
                   else [EProbe sp; EProbe tp]))%list
  | (Thrown _, _) => True
  end.
Proof.
  cbv zeta.
  unfold processInteractionOptions, validateAudioFile, downloadFile, fetch,
    arrayBuffer, uuidv4, writeFileSync, validateAudioDuration,
    getAudioDuration.
  run_step.
  repeat (case_innermost; run_step); trivial.
  all: try match goal with
           | H : String.eqb _ _ = _ |- _ => vm_compute in H; discriminate
           end.
  all: try (eexists _, _, _; split; [apply fs_write_In|]).
  all: rewrite <- !app_assoc; reflexivity.
Qed.

Lemma downloads_precede_duration_checks_witness :
  let E := Sample.environment Sample.serves Sample.long_source
             (Sample.produces "T" []) None in
  let i := Sample.request "a.wav" "b.wav" false None None in
  let r := processInteractionOptions E i "T" Sample.ready_world in
  fst r = Thrown (DurationExceeded "source") /\
  exists (sp tp : string) (bytes : list Byte.byte),
    In (tp, File bytes) (fs (snd r)) /\
    log (snd r) =
    [EFetch "https://cdn/s"; EWrite sp; EFetch "https://cdn/t"; EWrite tp;
     EProbe sp].
Proof.
  split; [reflexivity|].
  exact (downloads_precede_duration_checks
           (Sample.environment Sample.serves Sample.long_source
              (Sample.produces "T" []) None)
           (Sample.request "a.wav" "b.wav" false None None)
           "T" Sample.ready_world).
Defined.

(* ================================================================== *)
(** ** Workspace teardown *)

Lemma removals_app (l1 l2 : list event) :
  removals (l1 ++ l2) = (removals l1 ++ removals l2)%list.
Proof.
  induction l1 as [|e l1 IH]; [reflexivity|].
  destruct e; cbn [app removals]; rewrite IH; reflexivity.
Qed.

Lemma quiet_ret {A} (a : A) : quiet (ret a).
Proof. intros w. reflexivity. Qed.

Lemma quiet_throw {A} (e : error) : quiet (@throw world A e).
Proof. intros w. reflexivity. Qed.

Lemma quiet_bind {A B} (c : M A) (k : A -> M B) :
  quiet c -> (forall a, quiet (k a)) -> quiet (bind c k).
Proof.
  intros Hc Hk w. unfold bind. specialize (Hc w).
  destruct (c w) as [[a | e] w1]; cbn [snd] in *.
  - now rewrite Hk.
  - exact Hc.
Qed.

Lemma quiet_promise_catch {A} (c : M A) (h : error -> M A) :
  quiet c -> (forall e, quiet (h e)) -> quiet (promise_catch c h).
Proof.
  intros Hc Hh w. unfold promise_catch. specialize (Hc w).
  destruct (c w) as [[a | e] w1]; cbn [snd] in *.
  - exact Hc.
  - now rewrite Hh.
Qed.

Section Quiet.

Variable E : env.

Ltac primitive :=
  intros w;
  repeat case_innermost;
  cbn [snd fst log fs emit with_fs uuids];
  rewrite ?removals_app, ?app_nil_r; reflexivity.

Lemma quiet_uuidv4 : quiet (uuidv4 E).
Proof. intros w. reflexivity. Qed.

Lemma quiet_mkdirSync (p : string) : quiet (mkdirSync E p).
Proof. unfold mkdirSync. primitive. Qed.

Lemma quiet_writeFileSync (p : string) (b : list Byte.byte) :
  quiet (writeFileSync E p b).
Proof. unfold writeFileSync. primitive. Qed.

Lemma quiet_readdirSync (p : string) : quiet (readdirSync p).
Proof. unfold readdirSync. primitive. Qed.

Lemma quiet_fetch (u : string) : quiet (fetch E u).
Proof. unfold fetch. primitive. Qed.

Lemma quiet_arrayBuffer (r : Z * body_outcome) : quiet (arrayBuffer r).
Proof. unfold arrayBuffer. primitive. Qed.

Lemma quiet_deferReply : quiet (deferReply E).
Proof. unfold deferReply. primitive. Qed.

Lemma quiet_editReply (r : reply) : quiet (editReply E r).
Proof. unfold editReply. primitive. Qed.

Lemma quiet_console_error (l : string) (e : error) :
  quiet (console_error l e).
Proof. unfold console_error. primitive. Qed.

Lemma quiet_getAudioDuration (p : string) : quiet (getAudioDuration E p).
Proof. unfold getAudioDuration. primitive. Qed.

Lemma quiet_executeCommand (c : string) : quiet (executeCommand E c).
Proof. unfold executeCommand. primitive. Qed.

Lemma quiet_validateAudioFile (file : attachment) :
  quiet (validateAudioFile file).
Proof. unfold validateAudioFile. primitive. Qed.

Create HintDb quiet.

#[local] Hint Resolve quiet_uuidv4 quiet_mkdirSync quiet_writeFileSync
  quiet_readdirSync quiet_fetch quiet_arrayBuffer quiet_deferReply
  quiet_editReply quiet_console_error quiet_getAudioDuration
  quiet_executeCommand quiet_validateAudioFile : quiet.

Ltac compose_quiet :=
  repeat first
    [ apply quiet_ret
    | apply quiet_throw
    | apply quiet_bind; [|intro]
    | apply quiet_promise_catch; [|intro]
    | solve [auto with quiet]
    | case_innermost ].

Lemma quiet_createTempDir : quiet (createTempDir E).
Proof. unfold createTempDir. compose_quiet. Qed.

Lemma quiet_downloadFile (u dir prefix : string) :
  quiet (downloadFile E u dir prefix).
Proof. unfold downloadFile. compose_quiet. Qed.

Lemma quiet_validateAudioDuration (p label : string) :
  quiet (validateAudioDuration E p label).
Proof. unfold validateAudioDuration. compose_quiet. Qed.

#[local] Hint Resolve quiet_downloadFile quiet_validateAudioDuration : quiet.

Lemma quiet_processInteractionOptions (i : interaction) (dir : string) :
  quiet (processInteractionOptions E i dir).
Proof. unfold processInteractionOptions. compose_quiet. Qed.

Lemma quiet_executeConversion (command dir : string) :
  quiet (executeConversion E command dir).
Proof. unfold executeConversion. compose_quiet. Qed.

Lemma quiet_pipeline (i : interaction) (dir : string) :
  quiet (pipeline E i dir).
Proof.
  unfold pipeline. apply quiet_bind.
  - apply quiet_processInteractionOptions.
  - intro. apply quiet_executeConversion.
Qed.

Lemma quiet_report (e : error) : quiet (report E e).
Proof. unfold report. compose_quiet. Qed.

Lemma quiet_before_cleanup (i : interaction) (dir : string) (w : world) :
  removals (log (before_cleanup E i dir w)) = removals (log w).
Proof.
  unfold before_cleanup. pose proof (quiet_pipeline i dir w) as Hp.
  destruct (pipeline E i dir w) as [[[] | e] w1]; cbn [snd] in Hp.
  - exact Hp.
  - now rewrite quiet_report.
Qed.

End Quiet.

Lemma join_truthy (x : string) (l : list string) :
  Js.truthy x = true -> Js.truthy (Js.join sep (x :: l)) = true.
Proof.
  destruct x as [|c x]; [discriminate|]. intros _.
  destruct l; reflexivity.
Qed.

Lemma path_join_truthy (segments : list string) :
  Js.truthy (path_join segments) = true.
Proof.
  unfold path_join.
  destruct (filter Js.truthy segments) as [|x l] eqn:Hf; [reflexivity|].
  apply join_truthy.
  assert (Hin : In x (filter Js.truthy segments)) by (rewrite Hf; now left).
  now apply filter_In in Hin.
Qed.

Lemma createTempDir_truthy (E : env) (w w' : world) (d : string) :
  createTempDir E w = (Returned d, w') -> Js.truthy d = true.
Proof.
  unfold createTempDir, bind, uuidv4, mkdirSync, ret.
  destruct (fs_unwritable E _ _); [discriminate|].
  intros H. injection H as <- _. apply path_join_truthy.
Qed.


(** [execute] once the workspace exists: whatever the pipeline does, the
    job ends with the removal of the workspace, and its outcome is the
    outcome of that removal. *)
Lemma execute_created (E : env) (i : interaction) (w w1 w2 : world)
    (d : string) :
  deferReply E w = (Returned tt, w1) ->
  createTempDir E w1 = (Returned d, w2) ->
  execute E i w = rmSync E d (before_cleanup E i d w2).
Proof.
  intros Hdefer Hcreate.
  pose proof (createTempDir_truthy _ _ Hcreate) as Htruthy.
  unfold execute, bind at 1. rewrite Hdefer.
  unfold with_local, try_catch_finally, bind, lift, get_local, set_local,
    before_cleanup, pipeline, report, bind, promise_catch, cleanupTempDir,
    console_error.
  cbn [fst snd]. rewrite Hcreate. cbn [fst snd].
  destruct (processInteractionOptions E i d w2) as [[o | e] w3]; cbn [fst snd].
  - destruct (executeConversion E _ d w3) as [[[] | e] w4]; cbn [fst snd].
    + rewrite Htruthy. now destruct (rmSync E d w4) as [[[] | e] w5].
    + destruct (editReply E _ _) as [[[] | e'] w5]; cbn [fst snd];
        rewrite Htruthy;
        match goal with
        | |- context [rmSync E d ?x] =>
            now destruct (rmSync E d x) as [[[] | e''] w6]
        end.
  - destruct (editReply E _ _) as [[[] | e'] w5]; cbn [fst snd];
      rewrite Htruthy;
      match goal with
      | |- context [rmSync E d ?x] =>
          now destruct (rmSync E d x) as [[[] | e''] w6]
      end.
Qed.

(** What the removal leaves in the log, whatever its outcome. *)
Lemma rmSync_log (E : env) (p : string) (w : world) :
  log (snd (rmSync E p w)) = (log w ++ [ERm p])%list.
Proof.
  unfold rmSync. destruct (present (fs w) p); [|reflexivity].
  destruct (fs_unwritable E w p); reflexivity.
Qed.

(** A removal that is not refused leaves nothing at the path or below. *)
Lemma rmSync_permitted (E : env) (p : string) (w : world) :
  fs_unwritable E w p = None ->
  fst (rmSync E p w) = Returned tt /\
  fs (snd (rmSync E p w)) = fs_rm p (fs w).
Proof.
  intros H. unfold rmSync. rewrite H.
  destruct (present (fs w) p) eqn:Hp; [now split|].
  split; [reflexivity|]. cbn [snd fs emit]. unfold fs_rm, present in *.
  induction (fs w) as [|e f IH]; [reflexivity|].
  cbn [existsb filter] in *. apply orb_false_iff in Hp as [He Hf].
  rewrite He. cbn [negb]. f_equal. now apply IH.
Qed.

(** [execute] when the workspace could not be created: the failure is
    reported and nothing is removed. *)
Lemma execute_not_created (E : env) (i : interaction) (w w1 w2 : world)
    (e : error) :
  deferReply E w = (Returned tt, w1) ->
  createTempDir E w1 = (Thrown e, w2) ->
  execute E i w = (Returned tt, snd (report E e w2)).
Proof.
  intros Hdefer Hcreate.
  unfold execute, bind at 1. rewrite Hdefer.
  unfold with_local, try_catch_finally, bind, lift, get_local, set_local,
    report, bind, promise_catch, cleanupTempDir, console_error.
  cbn [fst snd]. rewrite Hcreate. cbn [fst snd].
  destruct (editReply E _ _) as [[[] | e'] w5]; reflexivity.
Qed.

(** [execute] when Discord refuses the acknowledgement: the rejection
    leaves [execute] before the [try] statement is entered. *)
Lemma execute_not_deferred (E : env) (i : interaction) (w w1 : world)
    (e : error) :
  deferReply E w = (Thrown e, w1) -> execute E i w = (Thrown e, w1).
Proof. intros Hdefer. unfold execute, bind at 1. now rewrite Hdefer. Qed.

Lemma fs_rm_clears (d p : string) (n : node) (f : filesystem) :
  In (p, n) (fs_rm d f) -> within d p = false.
Proof.
  unfold fs_rm. intros H. apply filter_In in H as [_ H].
  now apply negb_true_iff in H.
Qed.

Lemma fs_rm_absent (d : string) (f : filesystem) :
  (forall p n, In (p, n) f -> within d p = false) -> fs_rm d f = f.
Proof.
  intros H. unfold fs_rm. induction f as [|[p n] f IH]; [reflexivity|].
  cbn [filter fst]. rewrite (H p n) by now left. cbn [negb]. f_equal.
  apply IH. intros q m Hq. apply (H q m). now right.
Qed.





(** C9. When the creation of the workspace throws, [execute] removes
    nothing: [tempDir] is still the empty string when the [finally] block
    runs, and [cleanupTempDir] on the empty string does nothing at all.  In
    every run of [execute], a path it removes is the path [createTempDir]
    returned to this very job. *)
Theorem teardown_skipped_when_creation_fails
    (E : env) (i : interaction) (w w1 w2 : world) (e : error) :
  deferReply E w = (Returned tt, w1) ->
  createTempDir E w1 = (Thrown e, w2) ->
  removals (log (snd (execute E i w))) = removals (log w) /\
  (forall w0, cleanupTempDir E "" w0 = (Returned tt, w0)) /\
  (forall (E' : env) (i' : interaction) (w' : world) (p : string),
      In p (removals (log (snd (execute E' i' w')))) ->
      In p (removals (log w')) \/
      exists u1 u2, deferReply E' w' = (Returned tt, u1) /\
                    createTempDir E' u1 = (Returned p, u2)).
Proof.
  intros Hdefer Hcreate. split; [|split].
  - rewrite (@execute_not_created E i w w1 w2 e Hdefer Hcreate). cbn [snd].
    pose proof (quiet_createTempDir E w1) as Hc.
    pose proof (quiet_deferReply E w) as Hd.
    rewrite Hcreate in Hc. rewrite Hdefer in Hd. cbn [snd] in Hc, Hd.
    now rewrite quiet_report, Hc, Hd.
  - reflexivity.
  - clear. intros E i w p Hin.
    pose proof (quiet_deferReply E w) as Hd.
    destruct (deferReply E w) as [[[] | e] w1] eqn:Hdefer; cbn [snd] in Hd.
    + pose proof (quiet_createTempDir E w1) as Hc.
      destruct (createTempDir E w1) as [[d | e] w2] eqn:Hcreate;
        cbn [snd] in Hc.
      * rewrite (@execute_created E i w w1 w2 d Hdefer Hcreate) in Hin.
        rewrite rmSync_log in Hin.
        rewrite removals_app, quiet_before_cleanup, Hc, Hd in Hin.
        apply in_app_or in Hin as [Hin | [<- | []]]; [now left|].
        right. now exists w1, w2.
      * rewrite (@execute_not_created E i w w1 w2 e Hdefer Hcreate) in Hin.
        cbn [snd] in Hin. rewrite quiet_report, Hc, Hd in Hin. now left.
    + rewrite (@execute_not_deferred E i w w1 e Hdefer) in Hin.
      cbn [snd] in Hin. rewrite Hd in Hin. now left.
Qed.

Lemma teardown_skipped_witness :
  let E := Sample.environment Sample.serves (Sample.seconds 10%float)
             (Sample.produces "T" []) (Some "EACCES") in
  let i := Sample.request "a.wav" "b.wav" false None None in
  fst (createTempDir E {| fs := []; log := [EDeferReply]; uuids := 0 |}) =
    Thrown (IOError "EACCES") /\
  removals (log (snd (execute E i Sample.empty_world))) = [].
Proof.
  split; [reflexivity|].
  exact (proj1
    (@teardown_skipped_when_creation_fails
       (Sample.environment Sample.serves (Sample.seconds 10%float)
          (Sample.produces "T" []) (Some "EACCES"))
       (Sample.request "a.wav" "b.wav" false None None)
       Sample.empty_world
       {| fs := []; log := [EDeferReply]; uuids := 0 |}
       {| fs := []; log := [EDeferReply; EMkdir "T\discord-bot-temp\u0"];
          uuids := 1 |}
       (IOError "EACCES") eq_refl eq_refl)).
Defined.

(** Scenario C of the spec: a target of 31 s.  The job reports
    [DurationExceeded], never starts the external process, and removes its
    workspace. *)
Example scenario_C_long_target :
  let E := Sample.environment Sample.serves Sample.long_target
             (Sample.produces "T\discord-bot-temp\u0" ["vc_out.wav"]) None in
  let i := Sample.request "a.wav" "b.wav" false None None in
  let d := "T\discord-bot-temp\u0" in
  execute E i Sample.empty_world =
  (Returned tt,
   {| fs := [("T", Dir); ("T\discord-bot-temp", Dir)];
      log := [EDeferReply; EMkdir d;
              EFetch "https://cdn/s"; EWrite (d ++ "\source_u1.wav");
              EFetch "https://cdn/t"; EWrite (d ++ "\target_u2.wav");
              EProbe (d ++ "\source_u1.wav"); EProbe (d ++ "\target_u2.wav");
              EConsoleError "Error in convert command:"
                (DurationExceeded "target");
              EEditReply
                {| content := "Error: The target audio file exceeds the maximum duration of 30 seconds.";
                   files := [] |};
              ERm d];
      uuids := 3 |}).
Proof. reflexivity. Qed.

(* ================================================================== *)
(** ** Strings and paths, continued *)

Lemma prefix_append (a b : string) : String.prefix a (a ++ b) = true.
Proof.
  induction a as [|c a IH]; [now destruct b|].
  cbn. destruct (ascii_dec c c); [exact IH | congruence].
Qed.

Lemma prefix_iff (a b : string) :
  String.prefix a b = true <-> exists r, b = a ++ r.
Proof.
  split.
  - revert b. induction a as [|c a IH]; intros b H.
    + now exists b.
    + destruct b as [|c' b]; [discriminate|]. cbn in H.
      destruct (ascii_dec c c') as [<- | _]; [|discriminate].
      destruct (IH b H) as [r ->]. now exists r.
  - intros [r ->]. apply prefix_append.
Qed.

Lemma append_cancel (a x y : string) : a ++ x = a ++ y -> x = y.
Proof.
  induction a as [|c a IH]; [trivial|].
  cbn. intros H. injection H as H. now apply IH.
Qed.

Lemma truthy_iff (s : string) : Js.truthy s = true <-> s <> "".
Proof.
  unfold Js.truthy. rewrite negb_true_iff. apply String.eqb_neq.
Qed.

Lemma path_join_pair (d n : string) :
  Js.truthy d = true -> Js.truthy n = true ->
  path_join [d; n] = d ++ sep ++ n.
Proof.
  intros Hd Hn. unfold path_join. cbn [filter]. now rewrite Hd, Hn.
Qed.

Lemma within_iff (d p : string) :
  within d p = true <-> p = d \/ exists r, p = d ++ sep ++ r.
Proof.
  unfold within. rewrite orb_true_iff, String.eqb_eq, prefix_iff.
  split; (intros [H | [r H]]; [now left | right; exists r]).
  - now rewrite <- append_assoc.
  - now rewrite append_assoc.
Qed.

Lemma within_child (d n : string) :
  Js.truthy d = true -> Js.truthy n = true ->
  within d (path_join [d; n]) = true.
Proof.
  intros Hd Hn. rewrite (path_join_pair d n Hd Hn).
  apply within_iff. right. now exists n.
Qed.

Lemma download_name_truthy (prefix u : string) :
  Js.truthy (prefix ++ "_" ++ u ++ ".wav") = true.
Proof. destruct prefix; reflexivity. Qed.

(* ================================================================== *)
(** ** What each function adds to the log *)

Lemma emits_ret {A} (P : event -> Prop) (a : A) : emits P (ret a).
Proof. intros w. exists []. split; [symmetry; apply app_nil_r | constructor]. Qed.

Lemma emits_throw {A} (P : event -> Prop) (e : error) :
  emits P (@throw world A e).
Proof. intros w. exists []. split; [symmetry; apply app_nil_r | constructor]. Qed.

Lemma emits_bind {A B} (P : event -> Prop) (c : M A) (k : A -> M B) :
  emits P c -> (forall a, emits P (k a)) -> emits P (bind c k).
Proof.
  intros Hc Hk w. unfold bind. destruct (Hc w) as [n1 [H1 F1]].
  destruct (c w) as [[a | e] w1]; cbn [snd] in *.
  - destruct (Hk a w1) as [n2 [H2 F2]]. exists (n1 ++ n2)%list. split.
    + now rewrite H2, H1, app_assoc.
    + now apply Forall_app.
  - now exists n1.
Qed.

Lemma emits_promise_catch {A} (P : event -> Prop) (c : M A)
    (h : error -> M A) :
  emits P c -> (forall e, emits P (h e)) -> emits P (promise_catch c h).
Proof.
  intros Hc Hh w. unfold promise_catch. destruct (Hc w) as [n1 [H1 F1]].
  destruct (c w) as [[a | e] w1]; cbn [snd] in *.
  - now exists n1.
  - destruct (Hh e w1) as [n2 [H2 F2]]. exists (n1 ++ n2)%list. split.
    + now rewrite H2, H1, app_assoc.
    + now apply Forall_app.
Qed.

Lemma emits_weaken {A} (P Q : event -> Prop) (c : M A) :
  (forall e, P e -> Q e) -> emits P c -> emits Q c.
Proof.
  intros HPQ Hc w. destruct (Hc w) as [n [H F]]. exists n. split; [exact H|].
  revert F. apply Forall_impl. exact HPQ.
Qed.

Section Emits.

Variable E : env.
Variable P : event -> Prop.

Ltac one_event :=
  intros HP w; repeat case_innermost; cbn [snd log emit with_fs];
  eexists [_]; (split; [reflexivity | now repeat constructor]).

Lemma emits_uuidv4 : emits P (uuidv4 E).
Proof.
  intros w. exists []. split; [symmetry; apply app_nil_r | constructor].
Qed.

Lemma emits_arrayBuffer (r : Z * body_outcome) : emits P (arrayBuffer r).
Proof.
  unfold arrayBuffer. destruct (snd r); [apply emits_throw | apply emits_ret].
Qed.

Lemma emits_mkdirSync (p : string) :
  P (EMkdir p) -> emits P (mkdirSync E p).
Proof. unfold mkdirSync. one_event. Qed.

Lemma emits_writeFileSync (p : string) (b : list Byte.byte) :
  P (EWrite p) -> emits P (writeFileSync E p b).
Proof. unfold writeFileSync. one_event. Qed.

Lemma emits_readdirSync (p : string) :
  P (EReaddir p) -> emits P (readdirSync p).
Proof. unfold readdirSync. one_event. Qed.

Lemma emits_fetch (u : string) : P (EFetch u) -> emits P (fetch E u).
Proof. unfold fetch. one_event. Qed.

Lemma emits_editReply (r : reply) :
  P (EEditReply r) -> emits P (editReply E r).
Proof. unfold editReply. one_event. Qed.

Lemma emits_console_error (l : string) (e : error) :
  P (EConsoleError l e) -> emits P (console_error l e).
Proof. unfold console_error. one_event. Qed.

Lemma emits_getAudioDuration (p : string) :
  P (EProbe p) -> emits P (getAudioDuration E p).
Proof. unfold getAudioDuration. one_event. Qed.

Lemma emits_executeCommand (c : string) :
  P (EExec c) -> (forall l e, P (EConsoleError l e)) ->
  emits P (executeCommand E c).
Proof.
  intros Hc Hl w. unfold executeCommand.
  destruct (child_process E w c) as [[m |] f]; cbn [snd log emit with_fs].
  - eexists [_; _]. rewrite <- app_assoc.
    split; [reflexivity | now repeat constructor].
  - eexists [_]. split; [reflexivity | now repeat constructor].
Qed.

End Emits.

Section EmitsPipeline.

Variable E : env.

Lemma emits_downloadFile (u dir prefix : string) :
  Js.truthy dir = true ->
  emits (download_event dir) (downloadFile E u dir prefix).
Proof.
  intros Hdir. unfold downloadFile.
  apply emits_bind; [now apply emits_fetch | intro r].
  apply emits_bind; [apply emits_arrayBuffer | intro b].
  apply emits_bind; [apply emits_uuidv4 | intro x].
  apply emits_bind; [|intro; apply emits_ret].
  apply emits_writeFileSync. cbn [download_event].
  apply within_child; [exact Hdir | apply download_name_truthy].
Qed.

Lemma emits_validateAudioDuration (dir p label : string) :
  emits (download_event dir) (validateAudioDuration E p label).
Proof.
  unfold validateAudioDuration.
  apply emits_bind; [now apply emits_getAudioDuration | intro d].
  destruct (over_limit d); [apply emits_throw | apply emits_ret].
Qed.

Lemma emits_validateAudioFile (Q : event -> Prop) (file : attachment) :
  emits Q (validateAudioFile file).
Proof.
  unfold validateAudioFile.
  destruct (negb _); [apply emits_throw | apply emits_ret].
Qed.

Lemma emits_processInteractionOptions (i : interaction) (dir : string) :
  Js.truthy dir = true ->
  emits (download_event dir) (processInteractionOptions E i dir).
Proof.
  intros Hdir. unfold processInteractionOptions.
  apply emits_bind; [apply emits_validateAudioFile | intros _].
  apply emits_bind; [apply emits_validateAudioFile | intros _].
  apply emits_bind;
    [destruct (_ && _); [apply emits_throw | apply emits_ret] | intros _].
  apply emits_bind; [now apply emits_downloadFile | intro sp].
  apply emits_bind; [now apply emits_downloadFile | intro tp].
  apply emits_bind; [apply emits_validateAudioDuration | intros _].
  apply emits_bind; [apply emits_validateAudioDuration | intros _].
  apply emits_ret.
Qed.

Lemma emits_executeConversion (command dir : string) :
  emits (conversion_event dir) (executeConversion E command dir).
Proof.
  unfold executeConversion.
  apply emits_bind; [now apply emits_executeCommand | intros _].
  apply emits_bind; [now apply emits_readdirSync | intro entries].
  destruct (find _ entries) as [file |] eqn:Hfind; [|apply emits_throw].
  destruct (negb (Js.truthy file)); [apply emits_throw|].
  apply emits_editReply. cbn [conversion_event content files].
  split; [reflexivity|]. exists file. split; [|reflexivity].
  now apply find_some in Hfind.
Qed.

Lemma emits_report (e : error) : emits report_event (report E e).
Proof.
  unfold report.
  apply emits_bind; [now apply emits_console_error | intros _].
  apply emits_promise_catch; [now apply emits_editReply | intro e'].
  now apply emits_console_error.
Qed.

Lemma emits_pipeline (i : interaction) (dir : string) :
  Js.truthy dir = true -> emits (job_event dir) (pipeline E i dir).
Proof.
  intros Hdir. unfold pipeline. apply emits_bind.
  - apply (emits_weaken (P := download_event dir)); [now left|].
    now apply emits_processInteractionOptions.
  - intro o. apply (emits_weaken (P := conversion_event dir)).
    + intros e He. right. now left.
    + apply emits_executeConversion.
Qed.

Lemma before_cleanup_log (i : interaction) (dir : string) (w : world) :
  Js.truthy dir = true ->
  exists new, log (before_cleanup E i dir w) = (log w ++ new)%list /\
              Forall (job_event dir) new.
Proof.
  intros Hdir. unfold before_cleanup.
  destruct (@emits_pipeline i dir Hdir w) as [n1 [H1 F1]].
  destruct (pipeline E i dir w) as [[[] | e] w1]; cbn [snd] in *.
  - now exists n1.
  - destruct (emits_report e w1) as [n2 [H2 F2]].
    exists (n1 ++ n2)%list. split.
    + now rewrite H2, H1, app_assoc.
    + apply Forall_app. split; [exact F1|].
      revert F2. apply Forall_impl. intros ev Hev. right. now right.
Qed.

Lemma deferReply_log (w w1 : world) (r : outcome unit) :
  deferReply E w = (r, w1) -> log w1 = (log w ++ [EDeferReply])%list.
Proof.
  unfold deferReply. destruct (discord_defer E w); intros H;
    injection H as _ <-; reflexivity.
Qed.

Lemma createTempDir_log (w w1 : world) (r : outcome string) :
  createTempDir E w = (r, w1) ->
  exists p, log w1 = (log w ++ [EMkdir p])%list /\
            forall d, r = Returned d -> p = d.
Proof.
  unfold createTempDir, bind, uuidv4, mkdirSync, ret.
  destruct (fs_unwritable E _ _); intros H; injection H as <- <-;
    eexists; (split; [reflexivity|]); intros d Hd;
    [discriminate | now injection Hd].
Qed.

(** The whole log of a job whose workspace was created. *)
Lemma execute_log (i : interaction) (w w1 w2 : world) (d : string) :
  deferReply E w = (Returned tt, w1) ->
  createTempDir E w1 = (Returned d, w2) ->
  exists new,
    log (snd (execute E i w)) =
    (log w ++ [EDeferReply; EMkdir d] ++ new ++ [ERm d])%list /\
    Forall (job_event d) new.
Proof.
  intros Hdefer Hcreate.
  rewrite (@execute_created E i w w1 w2 d Hdefer Hcreate).
  rewrite rmSync_log.
  destruct (@before_cleanup_log i d w2 (createTempDir_truthy _ _ Hcreate))
    as [new [Hnew Fnew]].
  destruct (createTempDir_log _ Hcreate) as [p [Hp Hpd]].
  rewrite (Hpd d eq_refl) in Hp.
  exists new. split; [|exact Fnew].
  rewrite Hnew, Hp, (deferReply_log _ Hdefer), <- !app_assoc. reflexivity.
Qed.

End EmitsPipeline.

(* ================================================================== *)
(** ** The job boundary *)

(** X1. [execute] catches every failure of the pipeline: it rejects only
    when the acknowledgement is rejected, and then with that error, or when
    the final removal of the workspace throws, and then with the error of
    the removal; when the workspace could not be created it resolves. *)
Theorem execute_rejects_only_at_its_ends
    (E : env) (i : interaction) (w : world) :
  match deferReply E w with
  | (Thrown e, _) => fst (execute E i w) = Thrown e
  | (Returned _, w1) =>
      match createTempDir E w1 with
      | (Thrown _, _) => fst (execute E i w) = Returned tt
      | (Returned d, w2) =>
          fst (execute E i w) = fst (rmSync E d (before_cleanup E i d w2)) /\
          (fs_unwritable E (before_cleanup E i d w2) d = None ->
           fst (execute E i w) = Returned tt)
      end
  end.
Proof.
  destruct (deferReply E w) as [[[] | e] w1] eqn:Hdefer.
  - destruct (createTempDir E w1) as [[d | e] w2] eqn:Hcreate.
    + rewrite (@execute_created E i w w1 w2 d Hdefer Hcreate).
      split; [reflexivity|]. intros Hfree.
      exact (proj1 (rmSync_permitted _ _ _ Hfree)).
    + now rewrite (@execute_not_created E i w w1 w2 e Hdefer Hcreate).
  - now rewrite (@execute_not_deferred E i w w1 e Hdefer).
Qed.

Lemma execute_rejects_only_at_its_ends_witness :
  let i := Sample.request "a.wav" "b.mp3" false None None in
  fst (execute
         (Sample.environment Sample.serves (Sample.seconds 10%float)
            (Sample.produces "T" []) None) i Sample.empty_world) =
    Returned tt /\
  fst (execute SampleRun.locked i Sample.empty_world) =
    Thrown (IOError "EBUSY: resource busy or locked, rmdir") /\
  fst (execute SampleRun.unacknowledged i Sample.empty_world) =
    Thrown (ReplyError "Unknown interaction").
Proof.
  cbv zeta. split; [|split].
  - exact (proj2 (@execute_rejects_only_at_its_ends
                    (Sample.environment Sample.serves
                       (Sample.seconds 10%float) (Sample.produces "T" [])
                       None)
                    (Sample.request "a.wav" "b.mp3" false None None)
                    Sample.empty_world) eq_refl).
  - exact (proj1 (@execute_rejects_only_at_its_ends SampleRun.locked
                    (Sample.request "a.wav" "b.mp3" false None None)
                    Sample.empty_world)).
  - exact (@execute_rejects_only_at_its_ends SampleRun.unacknowledged
             (Sample.request "a.wav" "b.mp3" false None None)
             Sample.empty_world).
Defined.

Lemma edits_app (a b : list event) : edits (a ++ b) = edits a + edits b.
Proof. unfold edits. now rewrite filter_app, length_app. Qed.

Lemma edits_download (dir : string) (l : list event) :
  Forall (download_event dir) l -> edits l = 0.
Proof.
  induction 1 as [|e l He _ IH]; [reflexivity|].
  destruct e; try contradiction; exact IH.
Qed.

Section Replies.

Variable E : env.
Hypothesis accepted : forall w r, discord_edit E w r = None.

Lemma edits_executeConversion (command dir : string) (w : world) :
  edits (log (snd (executeConversion E command dir w))) =
  edits (log w) +
  match fst (executeConversion E command dir w) with
  | Returned _ => 1
  | Thrown _ => 0
  end.
Proof.
  unfold executeConversion, bind, executeCommand, readdirSync, editReply,
    throw.
  repeat (case_innermost;
          cbn [fst snd log emit with_fs]; rewrite ?accepted in * );
    try discriminate;
    cbn [fst snd log emit with_fs]; rewrite ?edits_app; cbn; lia.
Qed.

Lemma edits_report (e : error) (w : world) :
  edits (log (snd (report E e w))) = edits (log w) + 1.
Proof.
  unfold report, bind, promise_catch, console_error, editReply.
  rewrite accepted. cbn [snd log emit]. rewrite !edits_app.
  unfold edits. cbn [filter is_edit List.length]. lia.
Qed.

Lemma edits_pipeline (i : interaction) (dir : string) (w : world) :
  Js.truthy dir = true ->
  edits (log (snd (pipeline E i dir w))) =
  edits (log w) +
  match fst (pipeline E i dir w) with
  | Returned _ => 1
  | Thrown _ => 0
  end.
Proof.
  intros Hdir. unfold pipeline, bind.
  destruct (@emits_processInteractionOptions E i dir Hdir w)
    as [new [Hnew Fnew]].
  destruct (processInteractionOptions E i dir w) as [[o | e] w1];
    cbn [fst snd] in *.
  - rewrite edits_executeConversion, Hnew, edits_app,
      (edits_download Fnew).
    destruct (executeConversion E _ dir w1) as [[] ?]; cbn [fst]; lia.
  - rewrite Hnew, edits_app, (edits_download Fnew). lia.
Qed.

End Replies.

(** X2. When Discord accepts every edit, a job that was acknowledged calls
    [editReply] exactly once, whatever happens in it. *)
Theorem one_reply_per_job
    (E : env) (i : interaction) (w w1 : world) :
  (forall w0 r, discord_edit E w0 r = None) ->
  deferReply E w = (Returned tt, w1) ->
  edits (log (snd (execute E i w))) = edits (log w) + 1.
Proof.
  intros Hacc Hdefer.
  pose proof (@deferReply_log E w w1 _ Hdefer) as Hd.
  destruct (createTempDir E w1) as [[d | e] w2] eqn:Hcreate.
  - rewrite (@execute_created E i w w1 w2 d Hdefer Hcreate).
    destruct (@createTempDir_log E w1 w2 _ Hcreate) as [p [Hp _]].
    rewrite rmSync_log, edits_app. unfold before_cleanup.
    pose proof (@edits_pipeline E Hacc i d w2
                  (@createTempDir_truthy E w1 w2 d Hcreate)) as Hpipe.
    destruct (pipeline E i d w2) as [[[] | e] w3]; cbn [fst snd] in *.
    + rewrite Hpipe, Hp, Hd, !edits_app. cbn. lia.
    + rewrite (@edits_report E Hacc), Hpipe, Hp, Hd, !edits_app. cbn. lia.
  - rewrite (@execute_not_created E i w w1 w2 e Hdefer Hcreate).
    destruct (@createTempDir_log E w1 w2 _ Hcreate) as [p [Hp _]].
    cbn [snd]. rewrite (@edits_report E Hacc), Hp, Hd, !edits_app. cbn. lia.
Qed.

Lemma one_reply_per_job_witness :
  let E := Sample.environment Sample.not_found Sample.long_source
             (Sample.produces "T" []) None in
  let i := Sample.request "a.wav" "b.wav" false None None in
  edits (log (snd (execute E i Sample.empty_world))) = 1.
Proof.
  exact (@one_reply_per_job
           (Sample.environment Sample.not_found Sample.long_source
              (Sample.produces "T" []) None)
           (Sample.request "a.wav" "b.wav" false None None)
           Sample.empty_world
           {| fs := []; log := [EDeferReply]; uuids := 0 |}
           (fun _ _ => eq_refl) eq_refl).
Defined.

Lemma report_logs_reply (E : env) (e : error) (w : world) :
  In (EEditReply {| content := "Error: " ++ message e; files := [] |})
     (log (snd (report E e w))).
Proof.
  unfold report, bind, promise_catch, console_error, editReply.
  destruct (discord_edit E _ _); cbn [snd log emit];
    repeat (apply in_or_app; first [right; now left | left]).
Qed.

(** X3. Whatever fails after the acknowledgement, be it the creation of the
    workspace or any step of the pipeline, the job tries to tell the user:
    it calls [editReply] with ["Error: "] followed by the message of that
    very error, and with no file. *)
Theorem failure_is_reported
    (E : env) (i : interaction) (w w1 w2 : world) (e : error) :
  deferReply E w = (Returned tt, w1) ->
  createTempDir E w1 = (Thrown e, w2) \/
  (exists d w', createTempDir E w1 = (Returned d, w') /\
                pipeline E i d w' = (Thrown e, w2)) ->
  In (EEditReply {| content := "Error: " ++ message e; files := [] |})
     (log (snd (execute E i w))).
Proof.
  intros Hdefer [Hcreate | [d [w' [Hcreate Hpipe]]]].
  - rewrite (@execute_not_created E i w w1 w2 e Hdefer Hcreate).
    apply report_logs_reply.
  - rewrite (@execute_created E i w w1 w' d Hdefer Hcreate).
    rewrite rmSync_log. unfold before_cleanup. rewrite Hpipe.
    apply in_or_app. left. apply report_logs_reply.
Qed.

Lemma failure_is_reported_witness :
  let E := Sample.environment Sample.serves Sample.long_target
             (Sample.produces "T" []) None in
  let i := Sample.request "a.wav" "b.wav" false None None in
  In (EEditReply
        {| content := "Error: The target audio file exceeds the maximum duration of 30 seconds.";
           files := [] |})
     (log (snd (execute E i Sample.empty_world))).
Proof.
  refine (@failure_is_reported
            (Sample.environment Sample.serves Sample.long_target
               (Sample.produces "T" []) None)
            (Sample.request "a.wav" "b.wav" false None None)
            Sample.empty_world SampleRun.acknowledged
            (snd (pipeline
                    (Sample.environment Sample.serves Sample.long_target
                       (Sample.produces "T" []) None)
                    (Sample.request "a.wav" "b.wav" false None None)
                    "T\discord-bot-temp\u0" SampleRun.created))
            (DurationExceeded "target") eq_refl _).
  right. exists "T\discord-bot-temp\u0", SampleRun.created.
  split; reflexivity.
Defined.

(** X4. The external process is started only after both attachments were
    downloaded and both durations accepted: when
    [processInteractionOptions] throws, the job runs no command. *)
Theorem no_command_without_validated_inputs
    (E : env) (i : interaction) (w w1 w2 w3 : world) (d : string)
    (e : error) :
  deferReply E w = (Returned tt, w1) ->
  createTempDir E w1 = (Returned d, w2) ->
  processInteractionOptions E i d w2 = (Thrown e, w3) ->
  forall command,
    In (EExec command) (log (snd (execute E i w))) ->
    In (EExec command) (log w).
Proof.
  intros Hdefer Hcreate Hpio command.
  pose proof (@createTempDir_truthy E w1 w2 d Hcreate) as Hd.
  rewrite (@execute_created E i w w1 w2 d Hdefer Hcreate).
  rewrite rmSync_log. unfold before_cleanup, pipeline, bind.
  rewrite Hpio. cbn [snd].
  destruct (emits_report E e w3) as [n2 [H2 F2]].
  destruct (@emits_processInteractionOptions E i d Hd w2) as [n1 [H1 F1]].
  rewrite Hpio in H1. cbn [snd] in H1.
  destruct (@createTempDir_log E w1 w2 _ Hcreate) as [p [Hp _]].
  rewrite H2, H1, Hp, (@deferReply_log E w w1 _ Hdefer).
  rewrite !in_app_iff. rewrite Forall_forall in F1, F2.
  intros [[[[[Hin | Hin] | Hin] | Hin] | Hin] | Hin]; trivial.
  - destruct Hin as [? | []]. discriminate.
  - destruct Hin as [? | []]. discriminate.
  - elim (F1 _ Hin).
  - elim (F2 _ Hin).
  - destruct Hin as [? | []]. discriminate.
Qed.

Lemma no_command_witness :
  let E := Sample.environment Sample.serves Sample.long_target
             (Sample.produces "T" []) None in
  let i := Sample.request "a.wav" "b.wav" false None None in
  fst (processInteractionOptions E i "T\discord-bot-temp\u0"
         SampleRun.created) = Thrown (DurationExceeded "target") /\
  forall command,
    In (EExec command) (log (snd (execute E i Sample.empty_world))) ->
    In (EExec command) (log Sample.empty_world).
Proof.
  split; [reflexivity|].
  refine (@no_command_without_validated_inputs
            (Sample.environment Sample.serves Sample.long_target
               (Sample.produces "T" []) None)
            (Sample.request "a.wav" "b.wav" false None None)
            Sample.empty_world SampleRun.acknowledged SampleRun.created
            (snd (processInteractionOptions
                    (Sample.environment Sample.serves Sample.long_target
                       (Sample.produces "T" []) None)
                    (Sample.request "a.wav" "b.wav" false None None)
                    "T\discord-bot-temp\u0" SampleRun.created))
            "T\discord-bot-temp\u0" (DurationExceeded "target")
            eq_refl eq_refl eq_refl).
Defined.

Lemma rmSync_returned (E : env) (d : string) (w : world) :
  fst (rmSync E d w) = Returned tt ->
  forall p n, In (p, n) (fs (snd (rmSync E d w))) -> within d p = false.
Proof.
  unfold rmSync. destruct (present (fs w) d) eqn:Hp.
  - destruct (fs_unwritable E w d); [discriminate|].
    intros _ p n. apply fs_rm_clears.
  - intros _ p n Hin. cbn [snd fs emit] in Hin.
    destruct (within d p) eqn:Hw; [|reflexivity].
    assert (Hex : present (fs w) d = true).
    { apply existsb_exists. now exists (p, n). }
    congruence.
Qed.

(** X5. A job writes only below its own workspace, and when the job
    resolves (the final removal was not refused) none of the files it wrote
    is left. *)
Theorem writes_stay_in_workspace
    (E : env) (i : interaction) (w w1 w2 : world) (d : string) :
  deferReply E w = (Returned tt, w1) ->
  createTempDir E w1 = (Returned d, w2) ->
  forall p,
    In (EWrite p) (log (snd (execute E i w))) ->
    In (EWrite p) (log w) \/
    (within d p = true /\
     (fst (execute E i w) = Returned tt ->
      forall n, ~ In (p, n) (fs (snd (execute E i w))))).
Proof.
  intros Hdefer Hcreate p Hin.
  destruct (@execute_log E i w w1 w2 d Hdefer Hcreate) as [new [Hlog F]].
  rewrite Hlog in Hin. rewrite !in_app_iff in Hin.
  rewrite Forall_forall in F.
  destruct Hin as [Hin | [Hin | [Hin | Hin]]].
  - now left.
  - destruct Hin as [? | [? | []]]; discriminate.
  - right. assert (Hw : within d p = true).
    { destruct (F _ Hin) as [H | [H | H]]; [exact H | elim H | elim H]. }
    split; [exact Hw|].
    rewrite (@execute_created E i w w1 w2 d Hdefer Hcreate).
    intros Hret n Hn. apply (rmSync_returned _ _ _ Hret) in Hn. congruence.
  - destruct Hin as [? | []]. discriminate.
Qed.

Lemma writes_stay_in_workspace_witness :
  let E := Sample.environment Sample.serves (Sample.seconds 10%float)
             (Sample.produces "T\discord-bot-temp\u0" ["vc_out.wav"]) None in
  let i := Sample.request "a.wav" "b.wav" false None None in
  In (EWrite "T\discord-bot-temp\u0\source_u1.wav")
     (log (snd (execute E i Sample.empty_world))) /\
  fst (execute E i Sample.empty_world) = Returned tt /\
  forall p,
    In (EWrite p) (log (snd (execute E i Sample.empty_world))) ->
    In (EWrite p) (log Sample.empty_world) \/
    (within "T\discord-bot-temp\u0" p = true /\
     (fst (execute E i Sample.empty_world) = Returned tt ->
      forall n, ~ In (p, n) (fs (snd (execute E i Sample.empty_world))))).
Proof.
  split; [vm_compute; tauto|]. split; [reflexivity|].
  refine (@writes_stay_in_workspace
            (Sample.environment Sample.serves (Sample.seconds 10%float)
               (Sample.produces "T\discord-bot-temp\u0" ["vc_out.wav"]) None)
            (Sample.request "a.wav" "b.wav" false None None)
            Sample.empty_world SampleRun.acknowledged SampleRun.created
            "T\discord-bot-temp\u0" eq_refl eq_refl).
Defined.

Lemma report_fs (E : env) (e : error) (w : world) :
  fs (snd (report E e w)) = fs w.
Proof.
  unfold report, bind, promise_catch, console_error, editReply.
  now destruct (discord_edit E _ _).
Qed.

(** The reply [executeConversion] sends carries an entry of the listing of
    the workspace as the external process left it. *)
Lemma executeConversion_reply (E : env) (command dir : string) (w : world)
    (r : reply) :
  In (EEditReply r) (log (snd (executeConversion E command dir w))) ->
  In (EEditReply r) (log w) \/
  (content r = "Voice conversion complete!" /\
   exists file,
     In file (fs_children dir
                (fs (snd (executeConversion E command dir w)))) /\
     Js.startsWith file "vc_" = true /\
     files r = [path_join [dir; file]]).
Proof.
  unfold executeConversion, bind, executeCommand, readdirSync, editReply,
    throw.
  destruct (child_process E w command) as [[m |] f];
    cbn [fst snd log emit with_fs fs].
  - rewrite !in_app_iff. intros [[H | H] | H]; [now left | |];
      destruct H as [H | []]; discriminate.
  - destruct (is_dir f dir);
      [|destruct (exists_path f dir); cbn [snd log emit with_fs];
        rewrite !in_app_iff; (intros [[H | H] | H]; [now left | |];
        destruct H as [H | []]; discriminate)].
    destruct (find _ (fs_children dir f)) as [file |] eqn:Hfind;
      [|cbn [snd log emit with_fs]; rewrite !in_app_iff;
        intros [[H | H] | H]; [now left | |];
        destruct H as [H | []]; discriminate].
    apply find_some in Hfind as [Hin Hpre].
    destruct (negb (Js.truthy file));
      [cbn [snd log emit with_fs]; rewrite !in_app_iff;
       intros [[H | H] | H]; [now left | |];
       destruct H as [H | []]; discriminate|].
    assert (Hgoal : forall w',
      fs w' = f ->
      In (EEditReply r)
         (((log w ++ [EExec command]) ++ [EReaddir dir]) ++
          [EEditReply {| content := "Voice conversion complete!";
                         files := [path_join [dir; file]] |}])%list ->
      In (EEditReply r) (log w) \/
      content r = "Voice conversion complete!" /\
      (exists file0, In file0 (fs_children dir (fs w')) /\
                     Js.startsWith file0 "vc_" = true /\
                     files r = [path_join [dir; file0]])).
    { intros w' Hfs. rewrite !in_app_iff.
      intros [[[H | H] | H] | H]; [now left | | |];
        destruct H as [H | []]; try discriminate.
      injection H as <-. right. split; [reflexivity|].
      exists file. rewrite Hfs. now repeat split. }
    destruct (discord_edit E _ _); cbn [snd log emit with_fs fs];
      intros Hi;
      exact (Hgoal {| fs := f; log := []; uuids := 0 |} eq_refl Hi).
Qed.

(** X6. Every reply of a job either carries no file, or is the success
    message carrying exactly one file: an entry of the job's workspace, as
    listed from the disk the external process left and the cleanup is about
    to remove, whose name starts with [vc_]. *)
Theorem attachments_come_from_workspace
    (E : env) (i : interaction) (w w1 w2 : world) (d : string) :
  deferReply E w = (Returned tt, w1) ->
  createTempDir E w1 = (Returned d, w2) ->
  forall r,
    In (EEditReply r) (log (snd (execute E i w))) ->
    In (EEditReply r) (log w) \/
    files r = [] \/
    (content r = "Voice conversion complete!" /\
     exists file,
       In file (fs_children d (fs (before_cleanup E i d w2))) /\
       Js.startsWith file "vc_" = true /\
       files r = [path_join [d; file]]).
Proof.
  intros Hdefer Hcreate r.
  pose proof (@createTempDir_truthy E w1 w2 d Hcreate) as Hd.
  rewrite (@execute_created E i w w1 w2 d Hdefer Hcreate), rmSync_log.
  assert (Hstart : In (EEditReply r) (log w2) -> In (EEditReply r) (log w)).
  { destruct (@createTempDir_log E w1 w2 _ Hcreate) as [p [Hp _]].
    rewrite Hp, (@deferReply_log E w w1 _ Hdefer), !in_app_iff.
    intros [[H | H] | H]; [exact H | |]; destruct H as [H | []];
      discriminate. }
  assert (Hreport : forall e w',
    In (EEditReply r) (log (snd (report E e w'))) ->
    In (EEditReply r) (log w') \/ files r = []).
  { intros e w'. destruct (emits_report E e w') as [n [Hn Fn]].
    rewrite Hn, in_app_iff. intros [H | H]; [now left|].
    right. rewrite Forall_forall in Fn. exact (Fn _ H). }
  rewrite in_app_iff. intros [Hin | [H | []]]; [|discriminate].
  revert Hin. unfold before_cleanup, pipeline, bind.
  destruct (@emits_processInteractionOptions E i d Hd w2) as [n [Hn Fn]].
  assert (Hdown : In (EEditReply r) (log w2 ++ n)%list ->
                  In (EEditReply r) (log w)).
  { rewrite in_app_iff. intros [H | H]; [now apply Hstart|].
    rewrite Forall_forall in Fn. elim (Fn _ H). }
  destruct (processInteractionOptions E i d w2) as [[o | e] w3];
    cbn [snd] in Hn.
  - pose proof (@executeConversion_reply E
                  (buildConversionCommand (process_cwd E) (sourcePath o)
                     (targetPath o) d (singing o) (diffusionSteps o)
                     (semiToneShift o)) d w3 r) as Hconv.
    destruct (executeConversion E _ d w3) as [[[] | e] w4]; cbn [snd] in *.
    + intros Hin. destruct (Hconv Hin) as [H | H].
      * left. apply Hdown. now rewrite <- Hn.
      * right. now right.
    + intros Hin. destruct (Hreport _ _ Hin) as [H | H].
      * destruct (Hconv H) as [H' | H'].
        -- left. apply Hdown. now rewrite <- Hn.
        -- right. right. now rewrite report_fs.
      * right. now left.
  - intros Hin. destruct (Hreport _ _ Hin) as [H | H].
    + left. apply Hdown. now rewrite <- Hn.
    + right. now left.
Qed.

Lemma attachments_come_from_workspace_witness :
  let E := Sample.environment Sample.serves (Sample.seconds 10%float)
             (Sample.produces "T\discord-bot-temp\u0" ["vc_out.wav"]) None in
  let i := Sample.request "a.wav" "b.wav" false None None in
  In (EEditReply {| content := "Voice conversion complete!";
                    files := ["T\discord-bot-temp\u0\vc_out.wav"] |})
     (log (snd (execute E i Sample.empty_world))) /\
  fs_children "T\discord-bot-temp\u0"
    (fs (before_cleanup E i "T\discord-bot-temp\u0" SampleRun.created)) =
    ["source_u1.wav"; "target_u2.wav"; "vc_out.wav"] /\
  forall r,
    In (EEditReply r) (log (snd (execute E i Sample.empty_world))) ->
    In (EEditReply r) (log Sample.empty_world) \/
    files r = [] \/
    (content r = "Voice conversion complete!" /\
     exists file,
       In file (fs_children "T\discord-bot-temp\u0"
                  (fs (before_cleanup E i "T\discord-bot-temp\u0"
                         SampleRun.created))) /\
       Js.startsWith file "vc_" = true /\
       files r = [path_join ["T\discord-bot-temp\u0"; file]]).
Proof.
  split; [vm_compute; tauto|]. split; [reflexivity|].
  refine (@attachments_come_from_workspace
            (Sample.environment Sample.serves (Sample.seconds 10%float)
               (Sample.produces "T\discord-bot-temp\u0" ["vc_out.wav"])
               None)
            (Sample.request "a.wav" "b.wav" false None None)
            Sample.empty_world SampleRun.acknowledged SampleRun.created
            "T\discord-bot-temp\u0" eq_refl eq_refl).
Defined.

Lemma executeConversion_failure_sends_nothing
    (E : env) (command dir : string) (w w' : world) (e : error) :
  executeConversion E command dir w = (Thrown e, w') ->
  (forall m, e <> ReplyError m) ->
  exists new, log w' = (log w ++ new)%list /\
              Forall (fun ev => is_edit ev = false) new.
Proof.
  unfold executeConversion, bind, executeCommand, readdirSync, editReply,
    throw.
  intros H Hnot; revert H.
  repeat (case_innermost; cbn [fst snd log emit with_fs]);
    intros H; try discriminate H; injection H as He Hw; subst e w';
    cbn [log emit with_fs];
    try (exfalso; eapply Hnot; reflexivity);
    rewrite <- ?app_assoc; eexists; (split; [reflexivity|]);
    now repeat constructor.
Qed.

(** X7. No partial result: when the pipeline fails for any reason other
    than Discord refusing the success message itself, no reply of the job
    carries a file. *)
Theorem no_attachment_on_failure
    (E : env) (i : interaction) (w w1 w2 w3 : world) (d : string)
    (e : error) :
  deferReply E w = (Returned tt, w1) ->
  createTempDir E w1 = (Returned d, w2) ->
  pipeline E i d w2 = (Thrown e, w3) ->
  (forall m, e <> ReplyError m) ->
  forall r,
    In (EEditReply r) (log (snd (execute E i w))) ->
    In (EEditReply r) (log w) \/ files r = [].
Proof.
  intros Hdefer Hcreate Hpipe Hnot r.
  pose proof (@createTempDir_truthy E w1 w2 d Hcreate) as Hd.
  rewrite (@execute_created E i w w1 w2 d Hdefer Hcreate).
  rewrite rmSync_log. unfold before_cleanup. rewrite Hpipe.
  destruct (emits_report E e w3) as [n2 [H2 F2]].
  assert (H1 : exists n1, log w3 = (log w2 ++ n1)%list /\
                          Forall (fun ev => is_edit ev = false) n1).
  { revert Hpipe. unfold pipeline, bind.
    destruct (@emits_processInteractionOptions E i d Hd w2) as [n [Hn Fn]].
    assert (Fn' : Forall (fun ev => is_edit ev = false) n).
    { revert Fn. apply Forall_impl. intros [] Hev; try reflexivity.
      elim Hev. }
    destruct (processInteractionOptions E i d w2) as [[o | e'] w'];
      cbn [snd] in Hn.
    - intros Hconv.
      destruct (executeConversion_failure_sends_nothing _ _ _ _ Hconv Hnot)
        as [m [Hm Fm]].
      exists (n ++ m)%list. split; [now rewrite Hm, Hn, app_assoc|].
      now apply Forall_app.
    - intros H. injection H as _ <-. now exists n. }
  destruct H1 as [n1 [H1 F1]].
  destruct (@createTempDir_log E w1 w2 _ Hcreate) as [p [Hp _]].
  rewrite H2, H1, Hp, (@deferReply_log E w w1 _ Hdefer).
  rewrite !in_app_iff. rewrite Forall_forall in F1, F2.
  intros [[[[[Hin | Hin] | Hin] | Hin] | Hin] | Hin].
  - now left.
  - destruct Hin as [? | []]. discriminate.
  - destruct Hin as [? | []]. discriminate.
  - specialize (F1 _ Hin). discriminate.
  - right. exact (F2 _ Hin).
  - destruct Hin as [? | []]. discriminate.
Qed.

Lemma no_attachment_on_failure_witness :
  let E := Sample.environment Sample.serves (Sample.seconds 10%float)
             (fun w => (Some "exit code 1", fs w)) None in
  let i := Sample.request "a.wav" "b.wav" false None None in
  fst (pipeline E i "T\discord-bot-temp\u0" SampleRun.created) =
    Thrown (ExecutionError "exit code 1") /\
  forall r,
    In (EEditReply r) (log (snd (execute E i Sample.empty_world))) ->
    In (EEditReply r) (log Sample.empty_world) \/ files r = [].
Proof.
  split; [reflexivity|].
  refine (@no_attachment_on_failure
            (Sample.environment Sample.serves (Sample.seconds 10%float)
               (fun w => (Some "exit code 1", fs w)) None)
            (Sample.request "a.wav" "b.wav" false None None)
            Sample.empty_world SampleRun.acknowledged SampleRun.created
            (snd (pipeline
                    (Sample.environment Sample.serves
                       (Sample.seconds 10%float)
                       (fun w => (Some "exit code 1", fs w)) None)
                    (Sample.request "a.wav" "b.wav" false None None)
                    "T\discord-bot-temp\u0" SampleRun.created))
            "T\discord-bot-temp\u0" (ExecutionError "exit code 1")
            eq_refl eq_refl eq_refl _).
  intros m. discriminate.
Defined.

Lemma is_dir_present (f : filesystem) (d : string) :
  is_dir f d = true -> present f d = true.
Proof.
  unfold is_dir, present. intros H.
  apply existsb_exists in H as [e [Hin He]]. apply existsb_exists.
  exists e. split; [exact Hin|]. apply andb_true_iff in He as [He _].
  unfold within. now rewrite He.
Qed.

(** The sample environments without a fault refuse nothing. *)
Lemma sample_refuses_nothing
    (net : string -> fetch_outcome) (probe : string -> probe_outcome)
    (run : world -> option string * filesystem) (w : world) (p : string) :
  fs_unwritable (Sample.environment net probe run None) w p = None.
Proof. cbn. destruct (log w) as [|[] []]; reflexivity. Qed.

(** X8. The successful run: when both attachments are accepted, the
    external process reports no error and leaves at least one [vc_] entry in
    the workspace, Discord accepts the edit and the operating system does
    not refuse the removal of the workspace, the job runs the command once,
    lists the workspace, replies with the first [vc_] entry attached and
    removes the workspace, in this order and nothing else, and resolves. *)
Theorem successful_job
    (E : env) (i : interaction) (w w1 w2 w3 : world) (d : string)
    (o : options) (after : filesystem) (first : string)
    (others : list string) :
  let command :=
    buildConversionCommand (process_cwd E) (sourcePath o) (targetPath o) d
      (singing o) (diffusionSteps o) (semiToneShift o) in
  (forall w0 r, discord_edit E w0 r = None) ->
  (forall w0, fs_unwritable E w0 d = None) ->
  deferReply E w = (Returned tt, w1) ->
  createTempDir E w1 = (Returned d, w2) ->
  processInteractionOptions E i d w2 = (Returned o, w3) ->
  child_process E w3 command = (None, after) ->
  is_dir after d = true ->
  outputs (fs_children d after) = first :: others ->
  execute E i w =
  (Returned tt,
   {| fs := fs_rm d after;
      log := (log w3 ++
              [EExec command; EReaddir d;
               EEditReply {| content := "Voice conversion complete!";
                             files := [path_join [d; first]] |};
               ERm d])%list;
      uuids := uuids w3 |}).
Proof.
  intros command Hacc Hfree Hdefer Hcreate Hpio Hrun Hdir Hout.
  rewrite (@execute_created E i w w1 w2 d Hdefer Hcreate).
  unfold before_cleanup, pipeline, bind. rewrite Hpio.
  unfold executeConversion, bind, executeCommand, readdirSync.
  fold command. rewrite Hrun. cbn [with_fs fs emit].
  rewrite Hdir, find_outputs, Hout. cbn [hd_error].
  rewrite (prefixed_truthy first).
  - unfold editReply. cbn beta iota delta [negb]. rewrite Hacc.
    unfold rmSync. cbn [fst snd with_fs emit fs].
    rewrite (is_dir_present _ _ Hdir), Hfree.
    unfold with_fs, emit. cbn [fs log uuids].
    rewrite <- !app_assoc. reflexivity.
  - apply (outputs_prefixed (fs_children d after)). rewrite Hout. now left.
Qed.

Lemma successful_job_witness :
  let E := Sample.environment Sample.serves (Sample.seconds 10%float)
             (Sample.produces "T\discord-bot-temp\u0" ["vc_out.wav"]) None in
  let i := Sample.request "a.wav" "b.wav" true None (Some 3%Z) in
  fst (execute E i Sample.empty_world) = Returned tt /\
  fs (snd (execute E i Sample.empty_world)) =
    [("T", Dir); ("T\discord-bot-temp", Dir)] /\
  skipn 8 (log (snd (execute E i Sample.empty_world))) =
  [EExec (buildConversionCommand "C:\bot"
            "T\discord-bot-temp\u0\source_u1.wav"
            "T\discord-bot-temp\u0\target_u2.wav"
            "T\discord-bot-temp\u0" true 60 3);
   EReaddir "T\discord-bot-temp\u0";
   EEditReply {| content := "Voice conversion complete!";
                 files := ["T\discord-bot-temp\u0\vc_out.wav"] |};
   ERm "T\discord-bot-temp\u0"].
Proof.
  cbv zeta.
  rewrite (@successful_job
             (Sample.environment Sample.serves (Sample.seconds 10%float)
                (Sample.produces "T\discord-bot-temp\u0" ["vc_out.wav"])
                None)
             (Sample.request "a.wav" "b.wav" true None (Some 3%Z))
             Sample.empty_world SampleRun.acknowledged SampleRun.created
             (snd (processInteractionOptions
                     (Sample.environment Sample.serves
                        (Sample.seconds 10%float)
                        (Sample.produces "T\discord-bot-temp\u0"
                           ["vc_out.wav"]) None)
                     (Sample.request "a.wav" "b.wav" true None (Some 3%Z))
                     "T\discord-bot-temp\u0" SampleRun.created))
             "T\discord-bot-temp\u0"
             {| sourcePath := "T\discord-bot-temp\u0\source_u1.wav";
                targetPath := "T\discord-bot-temp\u0\target_u2.wav";
                singing := true; diffusionSteps := 60; semiToneShift := 3 |}
             [("T", Dir); ("T\discord-bot-temp", Dir);
              ("T\discord-bot-temp\u0", Dir);
              ("T\discord-bot-temp\u0\source_u1.wav",
               File (Sample.bytes_of 4));
              ("T\discord-bot-temp\u0\target_u2.wav",
               File (Sample.bytes_of 4));
              ("T\discord-bot-temp\u0\vc_out.wav", File [])]
             "vc_out.wav" []
             (fun _ _ => eq_refl)
             (fun w0 => sample_refuses_nothing _ _ _ w0 _)
             eq_refl eq_refl eq_refl eq_refl eq_refl eq_refl).
  split; [|split]; reflexivity.
Defined.

(* ================================================================== *)
(** ** Validation, continued *)

(** X9. The duration check rejects only what compares greater than 30: a
    parsed duration for which [30 < d] is false passes, and that includes
    NaN, which is what [parseFloat] gives for an empty or non-numeric
    output of ffprobe. *)
Theorem duration_not_above_ceiling_passes
    (E : env) (filePath fileName : string) (w : world) (duration : float) :
  ffprobe E w filePath = ProbeStdout duration ->
  PrimFloat.ltb 30%float duration = false ->
  validateAudioDuration E filePath fileName w =
  (Returned tt, emit (EProbe filePath) w).
Proof.
  intros Hprobe Hlt.
  unfold validateAudioDuration, bind, getAudioDuration, over_limit,
    MAX_AUDIO_DURATION.
  now rewrite Hprobe, Hlt.
Qed.

Lemma duration_not_above_ceiling_witness :
  validateAudioDuration
    (Sample.environment Sample.serves (Sample.seconds PrimFloat.nan)
       (Sample.produces "T" []) None)
    "T\source_u0.wav" "source" Sample.ready_world =
  (Returned tt, emit (EProbe "T\source_u0.wav") Sample.ready_world).
Proof.
  exact (@duration_not_above_ceiling_passes
           (Sample.environment Sample.serves (Sample.seconds PrimFloat.nan)
              (Sample.produces "T" []) None)
           "T\source_u0.wav" "source" Sample.ready_world PrimFloat.nan
           eq_refl eq_refl).
Defined.

Lemma fs_write_keeps (p q : string) (b : list Byte.byte) (n : node)
    (f : filesystem) :
  q <> p -> In (q, n) f -> In (q, n) (fs_write p b f).
Proof.
  intros Hne Hin. unfold fs_write. destruct (exists_path f p).
  - apply in_map_iff. exists (q, n). split; [|exact Hin]. cbn [fst].
    apply String.eqb_neq in Hne. now rewrite Hne.
  - apply in_or_app. now left.
Qed.

Lemma download_paths_differ (dir u v : string) :
  path_join [dir; "source" ++ "_" ++ u ++ ".wav"] <>
  path_join [dir; "target" ++ "_" ++ v ++ ".wav"].
Proof.
  unfold path_join. cbn [filter]. rewrite !download_name_truthy.
  destruct (Js.truthy dir); cbn [Js.join].
  - intros H. apply append_cancel in H. discriminate.
  - discriminate.
Qed.

(** X10. What [processInteractionOptions] returns has been validated: both
    declared names have an allowed extension, the shift is 0 unless singing
    mode is on, the step count is the user's or the default of the mode,
    and both returned paths are files on disk. *)
Theorem returned_options_are_validated
    (E : env) (i : interaction) (tempDir : string) (w w' : world)
    (o : options) :
  processInteractionOptions E i tempDir w = (Returned o, w') ->
  extension_allowed (name (opt_source i)) = true /\
  extension_allowed (name (opt_target i)) = true /\
  singing o = opt_singing i /\
  (singing o = false -> semiToneShift o = 0%Z) /\
  diffusionSteps o =
    match opt_diffusion_steps i with
    | Some n => n
    | None => if singing o then 60%Z else 25%Z
    end /\
  (exists bytes, In (sourcePath o, File bytes) (fs w')) /\
  (exists bytes, In (targetPath o, File bytes) (fs w')).
Proof.
  rewrite <- !has_valid_extension_spec.
  unfold processInteractionOptions, validateAudioFile, downloadFile, fetch,
    arrayBuffer, uuidv4, writeFileSync, validateAudioDuration,
    getAudioDuration.
  match goal with |- _ -> ?Q => set (validated := Q) end.
  run_step.
  repeat (case_innermost; run_step); intros H; try discriminate H.
  injection H as <- <-. subst validated.
  cbn [sourcePath targetPath singing diffusionSteps semiToneShift fs].
  repeat match goal with
         | H : negb _ = false |- _ => apply negb_false_iff in H
         end.
  repeat split; trivial.
  - intros Hs.
    match goal with
    | H : _ && _ = false |- _ => rewrite Hs in H; cbn [negb andb] in H;
        apply negb_false_iff in H; now apply Z.eqb_eq in H
    end.
  - destruct (opt_singing i), (opt_diffusion_steps i); reflexivity.
  - eexists. apply fs_write_keeps; [apply download_paths_differ|].
    apply fs_write_In.
  - eexists. apply fs_write_In.
Qed.

Lemma returned_options_witness :
  let E := Sample.environment Sample.serves (Sample.seconds 10%float)
             (Sample.produces "T" []) None in
  let i := Sample.request "a.wav" "b.WAV" true None (Some 3%Z) in
  let r := processInteractionOptions E i "T" Sample.ready_world in
  fst r = Returned {| sourcePath := "T\source_u0.wav";
                      targetPath := "T\target_u1.wav";
                      singing := true; diffusionSteps := 60;
                      semiToneShift := 3 |} /\
  (exists bytes, In ("T\source_u0.wav", File bytes) (fs (snd r))) /\
  (exists bytes, In ("T\target_u1.wav", File bytes) (fs (snd r))).
Proof.
  cbv zeta. split; [reflexivity|].
  exact (proj2 (proj2 (proj2 (proj2 (proj2
    (@returned_options_are_validated
       (Sample.environment Sample.serves (Sample.seconds 10%float)
          (Sample.produces "T" []) None)
       (Sample.request "a.wav" "b.WAV" true None (Some 3%Z))
       "T" Sample.ready_world _ _ eq_refl)))))).
Defined.

(* ================================================================== *)
(** ** Workspaces of different jobs *)

(** The characters of an identifier as [uuidv4()] writes it: lower-case
    hexadecimal digits and dashes. *)
Definition uuid_char (c : ascii) : bool :=
  existsb (Ascii.eqb c) (list_ascii_of_string "0123456789abcdef-").

Fixpoint uuid_chars (s : string) : bool :=
  match s with
  | EmptyString => true
  | String c r => uuid_char c && uuid_chars r
  end.

(** A non-empty text made of such characters. *)
Definition uuid_text (s : string) : bool := Js.truthy s && uuid_chars s.

Lemma uuid_char_not_sep (c : ascii) : uuid_char c = true -> is_sep c = false.
Proof.
  destruct c as [[] [] [] [] [] [] [] []]; vm_compute; congruence.
Qed.

Lemma uuid_chars_sep_free (s : string) : uuid_chars s = true -> has_sep s = false.
Proof.
  induction s as [|c r IH]; [reflexivity|]. cbn [uuid_chars has_sep].
  intros H. apply andb_true_iff in H as [Hc Hr].
  now rewrite (uuid_char_not_sep _ Hc), IH.
Qed.

Lemma has_sep_after (a r : string) : has_sep (a ++ sep ++ r) = true.
Proof.
  induction a as [|c a IH]; [reflexivity|].
  cbn [append has_sep]. rewrite IH. apply orb_true_r.
Qed.

Lemma sep_free_split (a b x y : string) :
  has_sep a = false -> has_sep b = false ->
  a ++ sep ++ x = b ++ sep ++ y -> a = b.
Proof.
  revert b. induction a as [|c a IH]; intros [|c' b] Ha Hb H;
    cbn [append has_sep] in *.
  - reflexivity.
  - injection H as <- _. discriminate.
  - injection H as -> _. discriminate.
  - injection H as <- H. apply orb_false_iff in Ha as [_ Ha].
    apply orb_false_iff in Hb as [_ Hb]. f_equal. now apply IH.
Qed.

Lemma temp_base_truthy (E : env) : Js.truthy (temp_base E) = true.
Proof.
  unfold temp_base. destruct (process_env_TEMP E) as [t |]; [|reflexivity].
  destruct (Js.truthy t) eqn:Ht; [exact Ht | reflexivity].
Qed.

(** The path of a workspace: its identifier under a prefix common to all
    the jobs of one process. *)
Lemma createTempDir_path (E : env) (w w' : world) (d : string) :
  createTempDir E w = (Returned d, w') ->
  uuid_source E (uuids w) <> "" ->
  d = (temp_base E ++ sep ++ "discord-bot-temp" ++ sep) ++
      uuid_source E (uuids w).
Proof.
  unfold createTempDir, bind, uuidv4, mkdirSync, ret. fold (temp_base E).
  destruct (fs_unwritable E _ _); [discriminate|].
  intros H Hu. injection H as <- _. apply truthy_iff in Hu.
  unfold path_join. cbn [filter]. rewrite temp_base_truthy, Hu.
  cbn [Js.truthy String.eqb negb Js.join]. now rewrite !append_assoc.
Qed.

Lemma within_workspaces_exclusive (W u1 u2 p : string) :
  u1 <> u2 -> has_sep u1 = false -> has_sep u2 = false ->
  within (W ++ u1) p = true -> within (W ++ u2) p = false.
Proof.
  intros Hne H1 H2 Hin1.
  destruct (within (W ++ u2) p) eqn:Hin2; [exfalso | reflexivity].
  apply within_iff in Hin1. apply within_iff in Hin2.
  destruct Hin1 as [-> | [r1 ->]]; destruct Hin2 as [Heq | [r2 Heq]];
    rewrite ?append_assoc in Heq; apply append_cancel in Heq.
  - now apply Hne.
  - rewrite Heq, has_sep_after in H1. discriminate.
  - rewrite <- Heq, has_sep_after in H2. discriminate.
  - apply Hne. now apply (sep_free_split u1 u2 r1 r2).
Qed.

Lemma rmSync_keeps (E : env) (d p : string) (n : node) (w : world) :
  within d p = false -> In (p, n) (fs w) ->
  In (p, n) (fs (snd (rmSync E d w))).
Proof.
  intros Hout Hin. unfold rmSync.
  destruct (present (fs w) d); [|exact Hin].
  destruct (fs_unwritable E w d); [exact Hin|].
  cbn [snd fs with_fs]. unfold fs_rm. apply filter_In.
  split; [exact Hin|]. cbn [fst]. now rewrite Hout.
Qed.

(** X11. Two workspaces created with different identifiers, both written
    as [uuidv4()] writes them (lower-case hexadecimal digits and dashes, so
    no separator, no dot and no letter case to fold), share no path; so the
    cleanup of one job, whether it succeeds or is refused, leaves every
    file of the other in place. *)
Theorem workspaces_are_disjoint
    (E : env) (wa wa' wb wb' : world) (d1 d2 : string) :
  createTempDir E wa = (Returned d1, wa') ->
  createTempDir E wb = (Returned d2, wb') ->
  uuid_source E (uuids wa) <> uuid_source E (uuids wb) ->
  uuid_text (uuid_source E (uuids wa)) = true ->
  uuid_text (uuid_source E (uuids wb)) = true ->
  (forall p, within d1 p = true -> within d2 p = false) /\
  (forall w0 p n,
      within d2 p = true -> In (p, n) (fs w0) ->
      In (p, n) (fs (snd (cleanupTempDir E d1 w0)))).
Proof.
  intros Ha Hb Hne Hu1 Hu2.
  apply andb_true_iff in Hu1 as [Hn1 Hs1].
  apply andb_true_iff in Hu2 as [Hn2 Hs2].
  apply truthy_iff in Hn1. apply truthy_iff in Hn2.
  apply uuid_chars_sep_free in Hs1. apply uuid_chars_sep_free in Hs2.
  pose proof (@createTempDir_truthy E wa wa' d1 Ha) as Ht.
  pose proof (@createTempDir_path E wa wa' d1 Ha Hn1) as E1.
  pose proof (@createTempDir_path E wb wb' d2 Hb Hn2) as E2.
  set (W := temp_base E ++ sep ++ "discord-bot-temp" ++ sep) in *.
  split.
  - intros p. rewrite E1, E2. now apply within_workspaces_exclusive.
  - intros w0 p n Hin2 Hp. unfold cleanupTempDir. rewrite Ht.
    apply rmSync_keeps; [|exact Hp].
    destruct (within d1 p) eqn:Hin1; [|reflexivity].
    rewrite E1 in Hin1. rewrite E2 in Hin2.
    rewrite (@within_workspaces_exclusive W _ _ p Hne Hs1 Hs2 Hin1) in Hin2.
    discriminate.
Qed.

Lemma workspaces_are_disjoint_witness :
  let E := SampleRun.two_jobs in
  let w0 := {| fs := [("T\discord-bot-temp\1b9d6bcd-bbfd-4b2d", Dir);
                      ("T\discord-bot-temp\6ec0bd7f-11c0-43da", Dir);
                      ("T\discord-bot-temp\6ec0bd7f-11c0-43da\source_x.wav",
                       File [])];
               log := []; uuids := 5 |} in
  within "T\discord-bot-temp\1b9d6bcd-bbfd-4b2d"
         "T\discord-bot-temp\6ec0bd7f-11c0-43da\source_x.wav" = false /\
  In ("T\discord-bot-temp\6ec0bd7f-11c0-43da\source_x.wav", File [])
     (fs (snd (cleanupTempDir E "T\discord-bot-temp\1b9d6bcd-bbfd-4b2d"
                 w0))).
Proof.
  cbv zeta. split; [reflexivity|].
  destruct (@workspaces_are_disjoint SampleRun.two_jobs
              {| fs := []; log := []; uuids := 0 |}
              (snd (createTempDir SampleRun.two_jobs
                      {| fs := []; log := []; uuids := 0 |}))
              {| fs := []; log := []; uuids := 1 |}
              (snd (createTempDir SampleRun.two_jobs
                      {| fs := []; log := []; uuids := 1 |}))
              "T\discord-bot-temp\1b9d6bcd-bbfd-4b2d"
              "T\discord-bot-temp\6ec0bd7f-11c0-43da")
    as [_ Hkeep]; try reflexivity.
  - cbn. discriminate.
  - apply Hkeep; [reflexivity | cbn; tauto].
Defined.

(* ================================================================== *)
(** ** What the declared names can do *)

Lemma processInteractionOptions_names
    (E : env) (i i' : interaction) (tempDir : string) (w : world) :
  url (opt_source i) = url (opt_source i') ->
  url (opt_target i) = url (opt_target i') ->
  opt_singing i = opt_singing i' ->
  opt_diffusion_steps i = opt_diffusion_steps i' ->
  opt_semi_tone_shift i = opt_semi_tone_shift i' ->
  extension_allowed (name (opt_source i)) =
    extension_allowed (name (opt_source i')) ->
  extension_allowed (name (opt_target i)) =
    extension_allowed (name (opt_target i')) ->
  processInteractionOptions E i tempDir w =
  processInteractionOptions E i' tempDir w.
Proof.
  intros Hus Hut Hsing Hsteps Hshift Hs Ht.
  unfold processInteractionOptions, validateAudioFile.
  rewrite !has_valid_extension_spec, Hus, Hut, Hsing, Hsteps, Hshift, Hs, Ht.
  reflexivity.
Qed.

(** X17. The name a user gives an attachment decides whether its extension
    is allowed and nothing else: two interactions that agree on the URLs,
    the mode, the steps and the shift, and whose names are accepted or
    refused alike, make the job do exactly the same; no declared name
    reaches a path or the command line. *)
Theorem declared_names_only_gate
    (E : env) (i i' : interaction) (w : world) :
  url (opt_source i) = url (opt_source i') ->
  url (opt_target i) = url (opt_target i') ->
  opt_singing i = opt_singing i' ->
  opt_diffusion_steps i = opt_diffusion_steps i' ->
  opt_semi_tone_shift i = opt_semi_tone_shift i' ->
  extension_allowed (name (opt_source i)) =
    extension_allowed (name (opt_source i')) ->
  extension_allowed (name (opt_target i)) =
    extension_allowed (name (opt_target i')) ->
  execute E i w = execute E i' w.
Proof.
  intros Hus Hut Hsing Hsteps Hshift Hs Ht.
  destruct (deferReply E w) as [[[] | e] w1] eqn:Hdefer.
  - destruct (createTempDir E w1) as [[d | e] w2] eqn:Hcreate.
    + rewrite (@execute_created E i w w1 w2 d Hdefer Hcreate),
        (@execute_created E i' w w1 w2 d Hdefer Hcreate).
      unfold before_cleanup, pipeline, bind.
      now rewrite (@processInteractionOptions_names E i i' d w2).
    + now rewrite (@execute_not_created E i w w1 w2 e Hdefer Hcreate),
        (@execute_not_created E i' w w1 w2 e Hdefer Hcreate).
  - now rewrite (@execute_not_deferred E i w w1 e Hdefer),
      (@execute_not_deferred E i' w w1 e Hdefer).
Qed.

Lemma declared_names_only_gate_witness :
  let E := Sample.environment Sample.serves (Sample.seconds 10%float)
             (Sample.produces "T\discord-bot-temp\u0" ["vc_out.wav"]) None in
  execute E (Sample.request "a.wav" "b.wav" true None (Some 3%Z))
    Sample.empty_world =
  execute E (Sample.request "x y.WAV" "$(reboot).wav" true None (Some 3%Z))
    Sample.empty_world.
Proof.
  apply (@declared_names_only_gate
           (Sample.environment Sample.serves (Sample.seconds 10%float)
              (Sample.produces "T\discord-bot-temp\u0" ["vc_out.wav"]) None)
           (Sample.request "a.wav" "b.wav" true None (Some 3%Z))
           (Sample.request "x y.WAV" "$(reboot).wav" true None (Some 3%Z))
           Sample.empty_world); reflexivity.
Defined.

(* ================================================================== *)
(** ** index.js: the registry and the event handlers *)

Module IndexFacts.

Import Index.

Lemma collection_get_set (k key : string) (v : command) (c : collection) :
  collection_get k (collection_set key v c) =
  if String.eqb key k then Some v else collection_get k c.
Proof.
  induction c as [|[k' old] r IH]; cbn [collection_set collection_get].
  - reflexivity.
  - destruct (String.eqb_spec k' key) as [-> | Hne]; cbn [collection_get].
    + destruct (String.eqb key k); reflexivity.
    + rewrite IH. destruct (String.eqb_spec k' k) as [-> | _]; [|reflexivity].
      apply String.eqb_neq in Hne. rewrite String.eqb_sym in Hne.
      now rewrite Hne.
Qed.

Lemma find_app {A} (p : A -> bool) (a b : list A) :
  find p (a ++ b) = match find p a with
                    | Some x => Some x
                    | None => find p b
                    end.
Proof.
  induction a as [|x a IH]; [reflexivity|].
  cbn [app find]. destruct (p x); [reflexivity | exact IH].
Qed.

Lemma required_app (a b : list bot_event) :
  required (a ++ b) = (required a ++ required b)%list.
Proof.
  induction a as [|e a IH]; [reflexivity|].
  destruct e; cbn [app required]; rewrite IH; reflexivity.
Qed.

Lemma replies_app (a b : list bot_event) :
  replies (a ++ b) = (replies a ++ replies b)%list.
Proof.
  induction a as [|e a IH]; [reflexivity|].
  destruct e; cbn [app replies]; rewrite IH; reflexivity.
Qed.

Lemma deployments_app (a b : list bot_event) :
  deployments (a ++ b) = (deployments a ++ deployments b)%list.
Proof.
  induction a as [|e a IH]; [reflexivity|].
  destruct e; cbn [app deployments]; rewrite IH; reflexivity.
Qed.

Section Loading.

Variable require : string -> outcome command.
Variable commandsPath : string.

(** One round of the loop of [loadCommands]. *)
Lemma loadCommands_from_cons (file : string) (rest : list string)
    (s : client) :
  loadCommands_from require commandsPath (file :: rest) s =
  loadCommands_from require commandsPath rest
    (match require (path_join [commandsPath; file]) with
     | Returned c =>
         {| commands := collection_set (data_name c) c (commands s);
            console := (console s ++
                        [BRequire (path_join [commandsPath; file])])%list;
            jobs := jobs s |}
     | Thrown e =>
         note (BConsoleError ("Error loading command " ++ file ++ ":") e)
           (note (BRequire (path_join [commandsPath; file])) s)
     end).
Proof.
  cbn [loadCommands_from].
  unfold bind at 1, try_catch, bind, require_module, set_command,
    console_error.
  destruct (require (path_join [commandsPath; file])); reflexivity.
Qed.

Lemma loadCommands_from_get (files : list string) (s : client)
    (key : string) :
  collection_get key
    (commands (snd (loadCommands_from require commandsPath files s))) =
  match find (fun c => String.eqb (data_name c) key)
             (rev (loaded require commandsPath files)) with
  | Some c => Some c
  | None => collection_get key (commands s)
  end.
Proof.
  revert s. induction files as [|file rest IH]; intros s; [reflexivity|].
  rewrite loadCommands_from_cons, IH. cbn [loaded].
  destruct (require (path_join [commandsPath; file])) as [c | e].
  - cbn [rev commands]. rewrite find_app, collection_get_set. cbn [find].
    destruct (find _ (rev (loaded require commandsPath rest)));
      [reflexivity|].
    destruct (String.eqb (data_name c) key); reflexivity.
  - reflexivity.
Qed.

Lemma loadCommands_from_required (files : list string) (s : client) :
  fst (loadCommands_from require commandsPath files s) = Returned tt /\
  required (console (snd (loadCommands_from require commandsPath files s))) =
  (required (console s) ++
   map (fun file => path_join [commandsPath; file]) files)%list.
Proof.
  revert s. induction files as [|file rest IH]; intros s.
  - split; [reflexivity | symmetry; apply app_nil_r].
  - rewrite loadCommands_from_cons.
    destruct (IH (match require (path_join [commandsPath; file]) with
                  | Returned c =>
                      {| commands :=
                           collection_set (data_name c) c (commands s);
                         console :=
                           (console s ++
                            [BRequire (path_join [commandsPath; file])])%list;
                         jobs := jobs s |}
                  | Thrown e =>
                      note (BConsoleError
                              ("Error loading command " ++ file ++ ":") e)
                        (note (BRequire (path_join [commandsPath; file])) s)
                  end)) as [Hr Hreq].
    split; [exact Hr|]. rewrite Hreq.
    destruct (require (path_join [commandsPath; file]));
      cbn [console note map]; rewrite !required_app; cbn [required];
      rewrite <- ?app_assoc, ?app_nil_r; reflexivity.
Qed.

End Loading.

(** X12. After [loadCommands], looking a name up in the registry gives the
    last module, in the order of the files, that loaded and carries that
    name; a name no loaded module carries keeps what the registry had. *)
Theorem loadCommands_registers_last
    (require : string -> outcome command) (commandsPath : string)
    (listing : list string) (s : client) (key : string) :
  collection_get key
    (commands (snd (loadCommands require commandsPath listing s))) =
  match find (fun c => String.eqb (data_name c) key)
             (rev (loaded require commandsPath (commandFiles listing))) with
  | Some c => Some c
  | None => collection_get key (commands s)
  end.
Proof. unfold loadCommands. apply loadCommands_from_get. Qed.

(** X13. [loadCommands] never throws and calls [require] once on every
    entry of the directory whose name ends in [.js], in the order of the
    listing, and on nothing else: a module that fails to load does not keep
    the later ones from being loaded. *)
Theorem loadCommands_requires_js_files
    (require : string -> outcome command) (commandsPath : string)
    (listing : list string) (s : client) :
  fst (loadCommands require commandsPath listing s) = Returned tt /\
  required (console (snd (loadCommands require commandsPath listing s))) =
  (required (console s) ++
   map (fun file => path_join [commandsPath; file])
       (filter (fun file => Js.endsWith file ".js") listing))%list.
Proof. unfold loadCommands. apply loadCommands_from_required. Qed.

Example loadCommands_sample :
  let broken := Thrown (IOError "Cannot find module") in
  let module (n : string) :=
    Returned {| data_name := n; execute_id := n |} in
  let require (p : string) :=
    if String.eqb p "commands\conversion.js" then module "conversion"
    else if String.eqb p "commands\ping.js" then module "ping"
    else broken in
  let s := snd (loadCommands require "commands"
                  ["conversion.js"; "notes.txt"; "broken.js"; "ping.js"]
                  {| commands := []; console := [];
                     jobs := Sample.empty_world |}) in
  map fst (commands s) = ["conversion"; "ping"] /\
  console s =
  [BRequire "commands\conversion.js"; BRequire "commands\broken.js";
   BConsoleError "Error loading command broken.js:"
     (IOError "Cannot find module");
   BRequire "commands\ping.js"].
Proof. split; reflexivity. Qed.

(** X14. [handleInteractionCreate] never throws, whatever the handler it
    runs does to the client and whether or not that handler throws; an
    interaction that is not a chat-input command, or names a command that
    is not registered, leaves the whole state as it was and runs no
    handler. *)
Theorem handleInteractionCreate_never_throws
    (execute_of : command -> interaction -> Comp client unit)
    (reply_rejects : client -> option string)
    (x : chat_interaction) (s : client) :
  let r := handleInteractionCreate execute_of reply_rejects x s in
  fst r = Returned tt /\
  (isChatInputCommand x = false \/
   collection_get (commandName x) (commands s) = None ->
   r = (Returned tt, s)).
Proof.
  cbv zeta. unfold handleInteractionCreate.
  destruct (isChatInputCommand x); cbn [negb].
  - unfold bind, get_command.
    destruct (collection_get (commandName x) (commands s)) as [c |].
    + unfold try_catch, bind, console_error, interaction_reply.
      destruct (execute_of c (payload x) s) as [[[] | e] s'].
      * split; [reflexivity|]. intros [H | H]; discriminate.
      * cbn [fst snd]. destruct (reply_rejects _);
          (split; [reflexivity|]; intros [H | H]; discriminate).
    + split; [reflexivity|]. reflexivity.
  - split; reflexivity.
Qed.

Lemma handleInteractionCreate_witness :
  let s := {| commands := [("conversion", conversion_command)];
              console := []; jobs := Sample.empty_world |} in
  let x := {| isChatInputCommand := true; commandName := "convert";
              payload := Sample.request "a.wav" "b.wav" false None None |} in
  handleInteractionCreate
    (fun _ _ => throw (ExecutionError "handler failed")) (fun _ => None)
    x s = (Returned tt, s) /\
  fst (handleInteractionCreate
         (fun _ _ => throw (ExecutionError "handler failed"))
         (fun _ => Some "Unknown interaction")
         {| isChatInputCommand := true; commandName := "conversion";
            payload := Sample.request "a.wav" "b.wav" false None None |} s) =
    Returned tt.
Proof.
  cbv zeta. split.
  - apply (@handleInteractionCreate_never_throws
             (fun _ _ => throw (ExecutionError "handler failed"))
             (fun _ => None)
             {| isChatInputCommand := true; commandName := "convert";
                payload := Sample.request "a.wav" "b.wav" false None None |}
             {| commands := [("conversion", conversion_command)];
                console := []; jobs := Sample.empty_world |}).
    right. reflexivity.
  - apply (@handleInteractionCreate_never_throws
             (fun _ _ => throw (ExecutionError "handler failed"))
             (fun _ => Some "Unknown interaction")
             {| isChatInputCommand := true; commandName := "conversion";
                payload := Sample.request "a.wav" "b.wav" false None None |}
             {| commands := [("conversion", conversion_command)];
                console := []; jobs := Sample.empty_world |}).
Defined.

(** X15. With the conversion command registered under its name and its
    handler being the [execute] of [commands/conversion.js], an incoming
    [/conversion] interaction runs [execute] on the world of the jobs, and
    the generic reply "There was an error while executing this command!"
    is sent, ephemeral, exactly when [execute] rejected: when the
    acknowledgement of the job was rejected, or when the final removal of
    the workspace threw.  Every failure in between is answered by
    [execute] itself. *)
Theorem conversion_generic_error_reply
    (execute_of : command -> interaction -> Comp client unit)
    (reply_rejects : client -> option string)
    (E : env) (x : chat_interaction) (s : client) :
  (forall i s0, execute_of conversion_command i s0 =
                run_job (execute E i) s0) ->
  isChatInputCommand x = true ->
  commandName x = "conversion" ->
  collection_get "conversion" (commands s) = Some conversion_command ->
  let r := handleInteractionCreate execute_of reply_rejects x s in
  let generic :=
    [("There was an error while executing this command!", true)] in
  jobs (snd r) = snd (execute E (payload x) (jobs s)) /\
  commands (snd r) = commands s /\
  replies (console (snd r)) =
  (replies (console s) ++
   match deferReply E (jobs s) with
   | (Thrown _, _) => generic
   | (Returned _, w1) =>
       match createTempDir E w1 with
       | (Thrown _, _) => []
       | (Returned d, w2) =>
           match fst (rmSync E d (before_cleanup E (payload x) d w2)) with
           | Thrown _ => generic
           | Returned _ => []
           end
       end
   end)%list.
Proof.
  intros Hrun Hchat Hname Hget. cbv zeta.
  unfold handleInteractionCreate. rewrite Hchat, Hname. cbn [negb].
  unfold bind, get_command. rewrite Hget.
  unfold try_catch. rewrite Hrun.
  unfold run_job, bind, console_error, interaction_reply.
  assert (Hout :
    match deferReply E (jobs s) with
    | (Thrown _, _) =>
        exists e, fst (execute E (payload x) (jobs s)) = Thrown e
    | (Returned _, w1) =>
        match createTempDir E w1 with
        | (Thrown _, _) => fst (execute E (payload x) (jobs s)) = Returned tt
        | (Returned d, w2) =>
            fst (execute E (payload x) (jobs s)) =
            fst (rmSync E d (before_cleanup E (payload x) d w2))
        end
    end).
  { destruct (deferReply E (jobs s)) as [[[] | e] w1] eqn:Hdefer.
    - destruct (createTempDir E w1) as [[d | e] w2] eqn:Hcreate.
      + now rewrite (@execute_created E _ _ w1 w2 d Hdefer Hcreate).
      + now rewrite (@execute_not_created E _ _ w1 w2 e Hdefer Hcreate).
    - exists e. now rewrite (@execute_not_deferred E _ _ w1 e Hdefer). }
  destruct (deferReply E (jobs s)) as [[[] | e0] w1].
  - destruct (createTempDir E w1) as [[d | e1] w2].
    + rewrite <- Hout.
      destruct (execute E (payload x) (jobs s)) as [[[] | e] w'];
        cbn [fst snd].
      * repeat split. symmetry. apply app_nil_r.
      * destruct (reply_rejects _); cbn [snd jobs commands console note];
          (repeat split); rewrite !replies_app; cbn [replies];
          rewrite ?app_nil_r; reflexivity.
    + destruct (execute E (payload x) (jobs s)) as [[[] | e] w'];
        cbn [fst snd] in *; [|discriminate].
      repeat split. symmetry. apply app_nil_r.
  - destruct Hout as [e Hout].
    destruct (execute E (payload x) (jobs s)) as [[[] | e'] w'];
      cbn [fst snd] in *; [discriminate|].
    destruct (reply_rejects _); cbn [snd jobs commands console note];
      (repeat split); rewrite !replies_app; cbn [replies];
      rewrite ?app_nil_r; reflexivity.
Qed.

Lemma conversion_generic_error_reply_witness :
  let execute_of (c : command) (i : interaction) :=
    run_job (execute SampleRun.unacknowledged i) in
  let s := {| commands := [("conversion", conversion_command)];
              console := []; jobs := Sample.empty_world |} in
  let x := {| isChatInputCommand := true; commandName := "conversion";
              payload := Sample.request "a.wav" "b.wav" false None None |} in
  replies (console (snd (handleInteractionCreate execute_of
                           (fun _ => None) x s))) =
  [("There was an error while executing this command!", true)].
Proof.
  cbv zeta.
  exact (proj2 (proj2
    (@conversion_generic_error_reply
       (fun _ i => run_job (execute SampleRun.unacknowledged i))
       (fun _ => None) SampleRun.unacknowledged
       {| isChatInputCommand := true; commandName := "conversion";
          payload := Sample.request "a.wav" "b.wav" false None None |}
       {| commands := [("conversion", conversion_command)];
          console := []; jobs := Sample.empty_world |}
       (fun _ _ => eq_refl) eq_refl eq_refl eq_refl))).
Defined.

(** X16. [handleReady] never throws and leaves the registry as it was; it
    registers commands with Discord only when the process was started with
    [--deploy], and then once, with the names of the registry in its
    order. *)
Theorem handleReady_deploys_on_flag
    (presence_rejects deploy_rejects : client -> option string)
    (tag : string) (argv : list string) (s : client) :
  let r := handleReady presence_rejects deploy_rejects tag argv s in
  fst r = Returned tt /\
  commands (snd r) = commands s /\
  deployments (console (snd r)) =
  (deployments (console s) ++
   if includes argv "--deploy"
   then [map (fun kv => data_name (snd kv)) (commands s)]
   else [])%list.
Proof.
  cbv zeta.
  unfold handleReady, try_catch, bind, setPresence, try_catch,
    deployCommands, try_catch, bind, discord_setPresence,
    discord_set_commands, console_log, console_error, ret.
  cbn [fst snd].
  destruct (presence_rejects _); cbn [fst snd];
    destruct (includes argv "--deploy"); cbn [fst snd];
    try destruct (deploy_rejects _); cbn [fst snd commands console note];
    (split; [reflexivity|]); (split; [reflexivity|]);
    rewrite ?deployments_app; cbn [deployments];
    rewrite ?app_nil_r; reflexivity.
Qed.

End IndexFacts.
